(** * Tracker: an in-memory event-lifecycle tracker

    A shallow embedding of [src/tracker.ts] and [src/typings.ts].

    The class keeps a two-level JavaScript [Map]
    ([initializedRecords : type -> id -> record]) and talks to its host
    through [Date.now], the id generator, [console.warn] and the
    callbacks of its options bundle.  The embedding threads a machine
    state (record storage, host world, event trace) through a small
    state-and-exception monad, so that a thrown callback leaves the
    storage exactly as the in-place mutations of the source leave it. *)

From Stdlib Require Import ZArith.
From stdpp Require Import gmap strings list fin_maps.

Open Scope string_scope.
Open Scope list_scope.

(** ** typings.ts *)

(** [interface TrackingInitialRecord { id; type; createdAt }] *)
Record TrackingInitialRecord : Type := {
  id : string;
  type : string;
  createdAt : Z
}.

(** ** JavaScript [Map<string, V>]

    Entries are kept in insertion order, which is the order [forEach]
    visits them in.  Keys of a [Map] are unique; [set] on a present key
    replaces the value in place, [set] on a new key appends. *)
Module JsMap.

Fixpoint get {V : Type} (k : string) (m : list (string * V)) : option V :=
  match m with
  | [] => None
  | (k', v) :: rest => if String.eqb k' k then Some v else get k rest
  end.

Fixpoint set {V : Type} (k : string) (v : V) (m : list (string * V))
  : list (string * V) :=
  match m with
  | [] => [(k, v)]
  | (k', v') :: rest =>
      if String.eqb k' k then (k, v) :: rest else (k', v') :: set k v rest
  end.

(** [delete] drops what is stored under [k]; keys being unique, that is
    at most one entry. *)
Fixpoint delete {V : Type} (k : string) (m : list (string * V))
  : list (string * V) :=
  match m with
  | [] => []
  | (k', v') :: rest =>
      if String.eqb k' k then delete k rest else (k', v') :: delete k rest
  end.

End JsMap.

(** [idOrRecord?: string | TrackingInitialRecord].  For an object
    argument only the value read by [idOrRecord?.id] matters: [None]
    stands for a property that is missing or [undefined]. *)
Inductive IdOrRecord : Type :=
| ArgString (s : string)
| ArgObject (id_field : option string)
| ArgOmitted.

Definition ArgRecord (r : TrackingInitialRecord) : IdOrRecord :=
  ArgObject (Some (id r)).

(** JavaScript truthiness of a [string | undefined] value, as tested by
    [if (!id)]: [undefined] and the empty string are falsy. *)
Definition truthy (v : option string) : bool :=
  match v with
  | None => false
  | Some s => negb (String.eqb s "")
  end.

(** [typeof idOrRecord === "string" ? idOrRecord : idOrRecord?.id] *)
Definition resolveId (idOrRecord : IdOrRecord) : option string :=
  match idOrRecord with
  | ArgString s => Some s
  | ArgObject f => f
  | ArgOmitted => None
  end.

(** The id a [submit] call works on: [Some i] in single mode, [None] in
    bulk mode (the [if (!id)] branch). *)
Definition targetId (idOrRecord : IdOrRecord) : option string :=
  let i := resolveId idOrRecord in if truthy i then i else None.

(** The two warning templates of [console.warn]. *)
Definition msgNoRecords (ty : string) : string :=
  "No records found for type " +:+ ty.

Definition msgNotFound (i ty : string) : string :=
  "Record with id " +:+ i +:+ " not found for type " +:+ ty.

(** ** What a plain object inherits

    The handler table is an ordinary object, so reading a property it
    does not own falls through to the standard [Object.prototype].
    [triggerSubmit] then calls what it finds as [fn(record)], a plain
    call in strict code, so with [this] undefined: [constructor] and
    [toString] return; every other built-in converts [this] to an
    object first and throws a [TypeError]; [__proto__] reads as the
    prototype object itself, which cannot be called. *)
Inductive Inherited : Type :=
| BuiltinReturns
| BuiltinThrows
| NotCallable.

Definition objectPrototypeMembers : list (string * Inherited) :=
  [("constructor", BuiltinReturns);
   ("toString", BuiltinReturns);
   ("toLocaleString", BuiltinThrows);
   ("valueOf", BuiltinThrows);
   ("hasOwnProperty", BuiltinThrows);
   ("isPrototypeOf", BuiltinThrows);
   ("propertyIsEnumerable", BuiltinThrows);
   ("__defineGetter__", BuiltinThrows);
   ("__defineSetter__", BuiltinThrows);
   ("__lookupGetter__", BuiltinThrows);
   ("__lookupSetter__", BuiltinThrows);
   ("__proto__", NotCallable)].

Definition objectPrototype (name : string) : option Inherited :=
  JsMap.get name objectPrototypeMembers.

(** ** The host

    What a tracker is instantiated over: [World] is the state of the
    host outside the tracker (clock, randomness, whatever the callbacks
    close over), [Data] the payload [P[K]], [Exn] the values host code
    can throw, [date_now] is [Date.now()], and [defaultIdGenerator] is
    the function of [./defaultIdGenerator] that the tracker imports.
    [TypeError] is the value the engine throws when a call cannot be
    made. *)
Class Host : Type := {
  World : Type;
  Data : Type;
  Exn : Type;
  TypeError : Exn;
  date_now : World → Z * World;
  defaultIdGenerator : World → string * World
}.

Section Tracker.

Context `{Host}.

Abbreviation Records := (list (string * TrackingInitialRecord)).
Abbreviation Store := (gmap string (list (string * TrackingInitialRecord))).

(** How a call into host code ends. *)
Inductive Completion (A : Type) : Type :=
| Normal (a : A)
| Throw (e : Exn).
Global Arguments Normal {A} a.
Global Arguments Throw {A} e.

(** A host function: it runs on the host world only.  Callbacks that
    call back into the tracker they are installed in are outside this
    model. *)
Definition HostFn (A : Type) : Type := World → Completion A * World.

(** [TrackingSubmitRecord]: the initial record's fields, spread, plus
    [submittedAt] and [data]. *)
Record TrackingSubmitRecord : Type := {
  initial : TrackingInitialRecord;
  submittedAt : Z;
  data : Data
}.

Definition SubmitHandler : Type := TrackingSubmitRecord → HostFn unit.

(** [onSubmit]: one function, or a [TrackingSubmissionHandlers] table
    ([Partial] of per-type functions); [table] holds the table's own
    entries. *)
Inductive OnSubmit : Type :=
| Global (f : SubmitHandler)
| PerType (table : gmap string SubmitHandler).

(** The constructor's [options] bundle; every entry is optional. *)
Record Options : Type := {
  options_generateId : option (HostFn string);
  options_onCreate : option (TrackingInitialRecord → HostFn unit);
  options_onSubmit : option OnSubmit
}.

(** What the tracker does to the outside, in order: a [console.warn],
    a call of [onCreate], a call of the function [triggerSubmit] found
    ([slot] is [None] for the single function and [Some type] for the
    property [type] of the table). *)
Inductive Event : Type :=
| Warn (msg : string)
| CallOnCreate (record : TrackingInitialRecord)
| CallOnSubmit (slot : option string) (record : TrackingSubmitRecord).

Record Machine : Type := {
  initializedRecords : gmap string (list (string * TrackingInitialRecord));
  world : World;
  trace : list Event
}.

(** A fresh [new Tracker(options)] in host world [w]. *)
Definition newTracker (w : World) : Machine :=
  {| initializedRecords := ∅; world := w; trace := [] |}.

Definition setStore (s : Store) (m : Machine) : Machine :=
  {| initializedRecords := s; world := world m; trace := trace m |}.

Definition setWorld (w : World) (m : Machine) : Machine :=
  {| initializedRecords := initializedRecords m; world := w; trace := trace m |}.

Definition logged (ev : Event) (m : Machine) : Machine :=
  {| initializedRecords := initializedRecords m;
     world := world m;
     trace := trace m ++ [ev] |}.

(** ** The machine monad *)

Inductive Result (A : Type) : Type :=
| Ok (a : A) (m : Machine)
| Thrown (e : Exn) (m : Machine).
Global Arguments Ok {A} a m.
Global Arguments Thrown {A} e m.

Definition M (A : Type) : Type := Machine → Result A.

Global Instance M_ret : MRet M := λ A a m, Ok a m.

Global Instance M_bind : MBind M := λ A B f c m,
  match c m with
  | Ok a m' => f a m'
  | Thrown e m' => Thrown e m'
  end.

(** The machine a computation leaves behind, however it ends. *)
Definition final {A : Type} (r : Result A) : Machine :=
  match r with Ok _ m => m | Thrown _ m => m end.

Definition emit (ev : Event) : M unit := λ m, Ok tt (logged ev m).

Definition throw {A : Type} (e : Exn) : M A := λ m, Thrown e m.

(** [console.warn(msg)] *)
Definition console_warn (msg : string) : M unit := emit (Warn msg).

(** Run host code on the host world. *)
Definition host {A : Type} (f : HostFn A) : M A := λ m,
  match (f (world m)).1 with
  | Normal a => Ok a (setWorld (f (world m)).2 m)
  | Throw e => Thrown e (setWorld (f (world m)).2 m)
  end.

Definition Date_now : M Z := λ m,
  Ok (date_now (world m)).1 (setWorld (date_now (world m)).2 m).

Definition getStore : M Store := λ m, Ok (initializedRecords m) m.

Definition putStore (s : Store) : M unit := λ m, Ok tt (setStore s m).

(** The inner [Map] held under [ty].  The source keeps a reference to
    it in [records]; the outer map never rebinds a key once it is set,
    so that reference always denotes the current entry of [ty]. *)
Definition records_of (ty : string) (s : Store) : Records :=
  default [] (s !! ty).

Definition readRecords (ty : string) : M Records :=
  s ← getStore; mret (records_of ty s).

(** An in-place update of the inner [Map] held under [ty]. *)
Definition mutateRecords (ty : string) (f : Records → Records) : M unit :=
  s ← getStore; putStore (<[ty := f (records_of ty s)]> s).

(** ** tracker.ts *)

Definition ensureTypeRecords (ty : string) : M Records :=
  s ← getStore;
  (if bool_decide (is_Some (s !! ty)) then mret tt
   else putStore (<[ty := []]> s));;
  readRecords ty.

Definition generateId (options : Options) : M string :=
  match options_generateId options with
  | Some g => host g
  | None => host (λ w, (Normal (defaultIdGenerator w).1, (defaultIdGenerator w).2))
  end.

(** What the [fn] of [triggerSubmit] evaluates to: [undefined], a
    function, or a value that is neither. *)
Inductive FnValue : Type :=
| FnUndefined
| FnFunction (slot : option string) (fn : SubmitHandler)
| FnNotCallable.

(** [typeof onSubmit === "function" ? onSubmit : onSubmit?.[type]]:
    [onSubmit] itself when it is a function; else the property [type]
    of the table, which is the table's own entry when it has one and
    otherwise what [Object.prototype] holds under that name. *)
Definition fnValue (options : Options) (ty : string) : FnValue :=
  match options_onSubmit options with
  | Some (Global f) => FnFunction None f
  | Some (PerType table) =>
      match table !! ty with
      | Some f => FnFunction (Some ty) f
      | None =>
          match objectPrototype ty with
          | Some BuiltinReturns => FnFunction (Some ty) (λ _ w, (Normal tt, w))
          | Some BuiltinThrows =>
              FnFunction (Some ty) (λ _ w, (Throw TypeError, w))
          | Some NotCallable => FnNotCallable
          | None => FnUndefined
          end
      end
  | None => FnUndefined
  end.

(** The function [triggerSubmit] goes on to call, when [fn] is one. *)
Definition selectHandler (options : Options) (ty : string)
  : option (option string * SubmitHandler) :=
  match fnValue options ty with
  | FnFunction slot fn => Some (slot, fn)
  | _ => None
  end.

(** [fn?.({...record, submittedAt, data})]: nothing when [fn] is
    [undefined], a call when it is a function, a [TypeError] when it
    is anything else. *)
Definition triggerSubmit (options : Options)
    (record : TrackingInitialRecord) (at_ : Z) (d : Data) (ty : string)
  : M unit :=
  match fnValue options ty with
  | FnFunction slot fn =>
      let arg := {| initial := record; submittedAt := at_; data := d |} in
      emit (CallOnSubmit slot arg);; host (fn arg)
  | FnUndefined => mret tt
  | FnNotCallable => throw TypeError
  end.

Definition getRecord (ty i : string) : M (option TrackingInitialRecord) :=
  s ← getStore;
  match s !! ty with
  | None => console_warn (msgNoRecords ty);; mret None
  | Some records =>
      match JsMap.get i records with
      | None => console_warn (msgNotFound i ty);; mret None
      | Some record => mret (Some record)
      end
  end.

Definition create (options : Options) (ty : string)
  : M TrackingInitialRecord :=
  i ← generateId options;
  t ← Date_now;
  let record := {| id := i; type := ty; createdAt := t |} in
  ensureTypeRecords ty;;
  mutateRecords ty (JsMap.set i record);;
  match options_onCreate options with
  | Some f => emit (CallOnCreate record);; host (f record)
  | None => mret tt
  end;;
  mret record.

(** [records.forEach(body)] on the inner map of [ty].  The body of the
    source only deletes entries, so the walk follows the entries
    present at the start and skips one that is gone by the time it is
    reached. *)
Fixpoint forEach (ty : string) (body : TrackingInitialRecord → M unit)
    (entries : Records) : M unit :=
  match entries with
  | [] => mret tt
  | (k, _) :: rest =>
      live ← readRecords ty;
      match JsMap.get k live with
      | Some record => body record;; forEach ty body rest
      | None => forEach ty body rest
      end
  end.

(** The callback [submit] hands to [records.forEach]: dispatch the
    record, then delete it under its own id. *)
Definition submitEach (options : Options) (ty : string) (d : Data) (at_ : Z)
  : TrackingInitialRecord → M unit :=
  λ record,
    triggerSubmit options record at_ d ty;;
    mutateRecords ty (JsMap.delete (id record)).
Global Arguments submitEach : simpl never.

Definition submit (options : Options) (ty : string) (d : Data)
    (idOrRecord : IdOrRecord) : M unit :=
  records ← ensureTypeRecords ty;
  at_ ← Date_now;
  match targetId idOrRecord with
  | None => forEach ty (submitEach options ty d at_) records
  | Some i =>
      live ← readRecords ty;
      match JsMap.get i live with
      | None => console_warn (msgNotFound i ty)
      | Some record =>
          triggerSubmit options record at_ d ty;;
          mutateRecords ty (JsMap.delete i)
      end
  end.

(** ** Calls of the public interface *)

Inductive Op : Type :=
| OpCreate (ty : string)
| OpGetRecord (ty i : string)
| OpSubmit (ty : string) (d : Data) (idOrRecord : IdOrRecord).

(** The machine after one call, whether it returned or threw. *)
Definition step (options : Options) (m : Machine) (op : Op) : Machine :=
  match op with
  | OpCreate ty => final (create options ty m)
  | OpGetRecord ty i => final (getRecord ty i m)
  | OpSubmit ty d a => final (submit options ty d a m)
  end.

Definition run (options : Options) (ops : list Op) (m : Machine) : Machine :=
  foldl (step options) m ops.

(** A run from [m] in which the id generator never returns [i]. *)
Fixpoint neverGenerates (options : Options) (i : string) (ops : list Op)
    (m : Machine) : Prop :=
  match ops with
  | [] => True
  | op :: rest =>
      match op with
      | OpCreate _ => ∀ i' m1, generateId options m = Ok i' m1 → i' ≠ i
      | _ => True
      end
      ∧ neverGenerates options i rest (step options m op)
  end.

(** ** Observations on the trace *)

Definition submitCalls (tr : list Event)
  : list (option string * TrackingSubmitRecord) :=
  omap (λ ev, match ev with
              | CallOnSubmit slot r => Some (slot, r)
              | _ => None
              end) tr.

Definition warnings (tr : list Event) : list string :=
  omap (λ ev, match ev with Warn msg => Some msg | _ => None end) tr.

(** The events emitted on the way from machine [m] to machine [m']. *)
Definition since (m m' : Machine) : list Event :=
  drop (length (trace m)) (trace m').

(** The handler calls that dispatching the stored [entries] of [ty]
    at time [t] with payload [d] amounts to: one per entry when a
    handler is selected for [ty], none otherwise. *)
Definition dispatchEvents (options : Options) (ty : string) (t : Z) (d : Data)
    (entries : Records) : list Event :=
  match selectHandler options ty with
  | Some (slot, _) =>
      (λ e, CallOnSubmit slot
              {| initial := e.2; submittedAt := t; data := d |}) <$> entries
  | None => []
  end.

(** The host world after [fn] has been called on each of [args] in
    turn, starting in world [w]. *)
Definition worldAfterCalls (fn : SubmitHandler)
    (args : list TrackingSubmitRecord) (w : World) : World :=
  foldl (λ w' arg, (fn arg w').2) w args.

(** A submission handler that returns normally whatever it is given. *)
Definition neverThrows (fn : SubmitHandler) : Prop :=
  ∀ arg w, (fn arg w).1 = Normal tt.

(** ** The storage invariant

    Every inner map has unique keys, and each record sits under its own
    id in the partition of its own type. *)
Definition wfRecords (ty : string) (p : Records) : Prop :=
  NoDup p.*1 ∧ Forall (λ e, id e.2 = e.1 ∧ type e.2 = ty) p.

Definition wfStore (s : Store) : Prop :=
  map_Forall wfRecords s.

End Tracker.

(** ** A concrete host, for running the model

    The world is a counter: the clock reads it and ticks, and the
    default generator names ids after it. *)
Definition demoHost : Host := {|
  World := nat;
  Data := string;
  Exn := string;
  TypeError := "TypeError";
  date_now := λ w, (Z.of_nat w, S w);
  defaultIdGenerator := λ w, (String.concat "" (replicate (S w) "x"), S w)
|}.

(** A handler that returns normally and leaves the host alone. *)
Definition quietHandler {A : Type} : A → @HostFn demoHost unit :=
  λ _ w, (Normal tt, w).

(** A callback that always throws. *)
Definition throwingCallback {A : Type} : A → @HostFn demoHost unit :=
  λ _ w, (Throw (H:=demoHost) "boom", w).

Definition noOptions : @Options demoHost := {|
  options_generateId := None;
  options_onCreate := None;
  options_onSubmit := None
|}.

(** [new Tracker({ onSubmit })] with one function. *)
Definition globalOptions : @Options demoHost := {|
  options_generateId := None;
  options_onCreate := None;
  options_onSubmit := Some (Global quietHandler)
|}.

(** [new Tracker({ onSubmit: { click } })]: a table without an entry
    for [pageView]. *)
Definition tableOptions : @Options demoHost := {|
  options_generateId := None;
  options_onCreate := None;
  options_onSubmit := Some (PerType {[ "click" := quietHandler ]})
|}.

(** [new Tracker({ generateId, onCreate })] with a constant generator,
    as in the test suite, and an [onCreate] that throws. *)
Definition throwingOptions : @Options demoHost := {|
  options_generateId := Some (λ w, (Normal "custom-id", w));
  options_onCreate := Some throwingCallback;
  options_onSubmit := None
|}.

Definition fresh : @Machine demoHost := newTracker (0%nat : @World demoHost).

(** [new Tracker({ generateId })] with the constant generator of the
    test suite: every record gets the same id. *)
Definition fixedIdOptions : @Options demoHost := {|
  options_generateId := Some (λ w, (Normal "custom-id", w));
  options_onCreate := None;
  options_onSubmit := None
|}.

(** [new Tracker({ generateId })] with a generator that throws. *)
Definition failingGeneratorOptions : @Options demoHost := {|
  options_generateId := Some (λ w, (Throw (H:=demoHost) "no id", w));
  options_onCreate := None;
  options_onSubmit := None
|}.

(** [new Tracker({ onSubmit })] with a function that throws on the
    record whose id is ["xxx"] and returns on every other one. *)
Definition pickyOptions : @Options demoHost := {|
  options_generateId := None;
  options_onCreate := None;
  options_onSubmit :=
    Some (Global (λ sr w,
      if String.eqb (id (initial sr)) "xxx"
      then (Throw (H:=demoHost) "boom", w)
      else (Normal tt, w)))
|}.

(** A handler that returns and moves the host world on by [n], so
    that the world tells which handler ran and how often. *)
Definition tallyHandler {A : Type} (n : nat) : A → @HostFn demoHost unit :=
  λ _ w, (Normal tt, (n + w)%nat).

(** [new Tracker({ onSubmit: { click, pageView } })] with a distinct
    handler per type. *)
Definition routedOptions : @Options demoHost := {|
  options_generateId := None;
  options_onCreate := None;
  options_onSubmit :=
    Some (PerType (<["click" := tallyHandler 1000]>
                     {[ "pageView" := tallyHandler 1 ]}))
|}.

(** * Properties *)

(** ** The inner map *)

Section JsMapFacts.

Context {V : Type}.
Implicit Types (k : string) (v : V) (m : list (string * V)).

Lemma get_set_eq k v m : JsMap.get k (JsMap.set k v m) = Some v.
Proof.
  induction m as [|[k' v'] m IH]; simpl.
  - by rewrite String.eqb_refl.
  - destruct (String.eqb_spec k' k) as [->|Hne]; simpl.
    + by rewrite String.eqb_refl.
    + by destruct (String.eqb_spec k' k).
Qed.

Lemma get_set_ne k k' v m :
  k ≠ k' → JsMap.get k' (JsMap.set k v m) = JsMap.get k' m.
Proof.
  intros Hne. induction m as [|[k0 v0] m IH]; simpl.
  - by destruct (String.eqb_spec k k').
  - destruct (String.eqb_spec k0 k) as [->|Hk]; simpl.
    + by do 2 destruct (String.eqb_spec k k').
    + by rewrite IH.
Qed.

Lemma get_delete_eq k m : JsMap.get k (JsMap.delete k m) = None.
Proof.
  induction m as [|[k' v'] m IH]; simpl; [done|].
  destruct (String.eqb_spec k' k) as [->|Hne]; simpl; [done|].
  by destruct (String.eqb_spec k' k).
Qed.

Lemma get_delete_ne k k' m :
  k ≠ k' → JsMap.get k' (JsMap.delete k m) = JsMap.get k' m.
Proof.
  intros Hne. induction m as [|[k0 v0] m IH]; simpl; [done|].
  destruct (String.eqb_spec k0 k) as [->|Hk]; simpl.
  - by destruct (String.eqb_spec k k').
  - by rewrite IH.
Qed.

(** Deleting never brings an entry in. *)
Lemma get_delete_Some k k' v m :
  JsMap.get k' (JsMap.delete k m) = Some v → JsMap.get k' m = Some v.
Proof.
  destruct (decide (k = k')) as [->|Hne].
  - by rewrite get_delete_eq.
  - by rewrite get_delete_ne.
Qed.

Lemma get_None k m : JsMap.get k m = None ↔ k ∉ m.*1.
Proof.
  induction m as [|[k' v'] m IH]; simpl.
  - split; [intros _; apply not_elem_of_nil | done].
  - rewrite not_elem_of_cons.
    destruct (String.eqb_spec k' k) as [->|Hne].
    + split; [done|]. by intros [? _].
    + rewrite IH. split; [by split|by intros [_ ?]].
Qed.

Lemma get_Some_elem k v m : JsMap.get k m = Some v → (k, v) ∈ m.
Proof.
  induction m as [|[k' v'] m IH]; simpl; [done|].
  destruct (String.eqb_spec k' k) as [->|Hne].
  - intros [= ->]. apply list_elem_of_here.
  - intros Hg. apply list_elem_of_further; auto.
Qed.

Lemma delete_notin k m : k ∉ m.*1 → JsMap.delete k m = m.
Proof.
  induction m as [|[k' v'] m IH]; simpl; [done|].
  rewrite not_elem_of_cons. intros [Hne Hnin].
  destruct (String.eqb_spec k' k) as [->|_]; [done|].
  by rewrite IH.
Qed.

Lemma elem_of_delete e k m : e ∈ JsMap.delete k m → e ∈ m.
Proof.
  induction m as [|[k' v'] m IH]; simpl; [done|].
  destruct (String.eqb_spec k' k) as [->|Hne].
  - intros He. apply list_elem_of_further; auto.
  - rewrite !elem_of_cons. intros [->|He]; [by left|right; auto].
Qed.

Lemma elem_of_set e k v m : e ∈ JsMap.set k v m → e = (k, v) ∨ e ∈ m.
Proof.
  induction m as [|[k' v'] m IH]; simpl.
  - rewrite list_elem_of_singleton. auto.
  - destruct (String.eqb_spec k' k) as [->|Hne]; rewrite !elem_of_cons.
    + intros [->|He]; auto.
    + intros [->|He]; [auto|]. destruct (IH He); auto.
Qed.

Lemma NoDup_delete k m : NoDup m.*1 → NoDup (JsMap.delete k m).*1.
Proof.
  induction m as [|[k' v'] m IH]; simpl; [done|].
  rewrite NoDup_cons. intros [Hnin Hnd].
  destruct (String.eqb_spec k' k) as [->|Hne]; [auto|].
  simpl. apply NoDup_cons. split; [|auto].
  intros Hin. apply Hnin.
  apply list_elem_of_fmap in Hin as [e [-> He]].
  apply list_elem_of_fmap. exists e. split; [done|].
  by eapply elem_of_delete.
Qed.

Lemma NoDup_set k v m : NoDup m.*1 → NoDup (JsMap.set k v m).*1.
Proof.
  induction m as [|[k' v'] m IH]; simpl.
  - intros _. apply NoDup_singleton.
  - rewrite NoDup_cons. intros [Hnin Hnd].
    destruct (String.eqb_spec k' k) as [->|Hne]; simpl.
    + by apply NoDup_cons.
    + apply NoDup_cons. split; [|auto].
      intros Hin. apply list_elem_of_fmap in Hin as [e [Hk He]].
      apply elem_of_set in He as [->|He]; [done|].
      apply Hnin. apply list_elem_of_fmap. by exists e.
Qed.

End JsMapFacts.

(** ** The machine *)

Ltac unfold_M :=
  unfold mbind, M_bind, mret, M_ret, readRecords, mutateRecords, getStore,
    putStore, console_warn, emit, Date_now in *.

Ltac run_M := repeat (progress (unfold_M; simpl in *)).

Section TrackerFacts.

Context `{Host}.

Implicit Types (m : Machine) (ty i k : string) (r : TrackingInitialRecord).
Implicit Types (options : Options) (d : Data) (a : IdOrRecord).
Implicit Types (s : gmap string (list (string * TrackingInitialRecord))).
Implicit Types (p : list (string * TrackingInitialRecord)).

Lemma setStore_id m : setStore (initializedRecords m) m = m.
Proof. by destruct m. Qed.

Lemma records_of_insert ty p s : records_of ty (<[ty := p]> s) = p.
Proof. unfold records_of. by rewrite lookup_insert_eq. Qed.

Lemma records_of_insert_ne ty ty' p s :
  ty ≠ ty' → records_of ty' (<[ty := p]> s) = records_of ty' s.
Proof. intros Hne. unfold records_of. by rewrite lookup_insert_ne. Qed.

Lemma records_of_Some ty p s : s !! ty = Some p → records_of ty s = p.
Proof. unfold records_of. by intros ->. Qed.

Lemma records_of_None ty s : s !! ty = None → records_of ty s = [].
Proof. unfold records_of. by intros ->. Qed.

(** Writing a partition back under its own key changes nothing once it
    exists. *)
Lemma insert_records_of ty s :
  is_Some (s !! ty) → <[ty := records_of ty s]> s = s.
Proof. intros [p Hp]. rewrite (records_of_Some _ _ _ Hp). by apply insert_id. Qed.

(** Every partition holds the same records after [ty] has been ensured. *)
Lemma records_of_ensured ty ty' s :
  records_of ty' (<[ty := records_of ty s]> s) = records_of ty' s.
Proof.
  destruct (decide (ty = ty')) as [->|Hne].
  - apply records_of_insert.
  - by apply records_of_insert_ne.
Qed.

Lemma ensureTypeRecords_run ty m :
  ensureTypeRecords ty m =
  Ok (records_of ty (initializedRecords m))
     (setStore (<[ty := records_of ty (initializedRecords m)]>
                  (initializedRecords m)) m).
Proof.
  unfold ensureTypeRecords. run_M.
  case_bool_decide as Hs; run_M.
  - by rewrite insert_records_of, setStore_id.
  - apply eq_None_not_Some in Hs.
    by rewrite records_of_insert, (records_of_None _ _ Hs).
Qed.

(** Host code changes the host world only. *)
Lemma host_final {A : Type} (f : HostFn A) m :
  initializedRecords (final (host f m)) = initializedRecords m
  ∧ trace (final (host f m)) = trace m.
Proof. unfold host. by destruct (f (world m)).1. Qed.

Lemma selectHandler_Some options ty slot fn :
  selectHandler options ty = Some (slot, fn) ↔
  fnValue options ty = FnFunction slot fn.
Proof.
  unfold selectHandler. destruct (fnValue options ty); split; congruence.
Qed.

Lemma triggerSubmit_undefined options r t d ty m :
  fnValue options ty = FnUndefined →
  triggerSubmit options r t d ty m = Ok tt m.
Proof. unfold triggerSubmit. by intros ->. Qed.

Lemma triggerSubmit_notCallable options r t d ty m :
  fnValue options ty = FnNotCallable →
  triggerSubmit options r t d ty m = Thrown TypeError m.
Proof. unfold triggerSubmit. by intros ->. Qed.

Lemma triggerSubmit_some options r t d ty m slot fn :
  selectHandler options ty = Some (slot, fn) →
  triggerSubmit options r t d ty m =
  let arg := {| initial := r; submittedAt := t; data := d |} in
  host (fn arg) (logged (CallOnSubmit slot arg) m).
Proof. unfold triggerSubmit. by intros ->%selectHandler_Some. Qed.

(** Dispatch never touches the storage, however it ends. *)
Lemma triggerSubmit_store options r t d ty m :
  initializedRecords (final (triggerSubmit options r t d ty m)) =
  initializedRecords m.
Proof.
  unfold triggerSubmit. destruct (fnValue options ty) as [|slot fn|];
    [done| |done].
  unfold_M. unfold host. simpl. by case_match.
Qed.

Lemma generateId_store options m :
  initializedRecords (final (generateId options m)) = initializedRecords m
  ∧ trace (final (generateId options m)) = trace m.
Proof.
  unfold generateId, host. destruct (options_generateId options); simpl;
    [by case_match|done].
Qed.

Lemma getRecord_run ty i m :
  getRecord ty i m =
  match initializedRecords m !! ty with
  | None => Ok None (logged (Warn (msgNoRecords ty)) m)
  | Some p =>
      match JsMap.get i p with
      | None => Ok None (logged (Warn (msgNotFound i ty)) m)
      | Some r => Ok (Some r) m
      end
  end.
Proof.
  unfold getRecord. unfold_M. simpl.
  destruct (initializedRecords m !! ty) as [p|]; [|done].
  by destruct (JsMap.get i p).
Qed.

Lemma getRecord_store ty i m :
  initializedRecords (final (getRecord ty i m)) = initializedRecords m.
Proof. rewrite getRecord_run. by repeat case_match. Qed.

(** The record built by [create] once the generator has returned [i]. *)
Lemma create_run options ty m :
  create options ty m =
  match generateId options m with
  | Thrown e m1 => Thrown e m1
  | Ok i m1 =>
      let r := {| id := i; type := ty;
                  createdAt := (date_now (world m1)).1 |} in
      let m2 :=
        setStore (<[ty := JsMap.set i r (records_of ty (initializedRecords m1))]>
                    (initializedRecords m1))
                 (setWorld (date_now (world m1)).2 m1) in
      match options_onCreate options with
      | None => Ok r m2
      | Some f =>
          match host (f r) (logged (CallOnCreate r) m2) with
          | Ok _ m3 => Ok r m3
          | Thrown e m3 => Thrown e m3
          end
      end
  end.
Proof.
  unfold create. unfold mbind at 1. unfold M_bind at 1.
  destruct (generateId options m) as [i m1|e m1]; [|done].
  unfold mbind at 1. unfold M_bind at 1. unfold Date_now at 1.
  unfold mbind at 1. unfold M_bind at 1. rewrite ensureTypeRecords_run.
  unfold_M. simpl. rewrite records_of_insert, insert_insert_eq.
  destruct (options_onCreate options) as [f|]; simpl; [|done].
  by destruct (host _ _).
Qed.

Lemma submit_run options ty d a m :
  submit options ty d a m =
  let p := records_of ty (initializedRecords m) in
  let t := (date_now (world m)).1 in
  let m1 := setWorld (date_now (world m)).2
              (setStore (<[ty := p]> (initializedRecords m)) m) in
  match targetId a with
  | None =>
      forEach ty (submitEach options ty d t) p m1
  | Some i =>
      match JsMap.get i p with
      | None => Ok tt (logged (Warn (msgNotFound i ty)) m1)
      | Some r =>
          match triggerSubmit options r t d ty m1 with
          | Ok _ m2 =>
              Ok tt (setStore (<[ty := JsMap.delete i p]> (initializedRecords m2)) m2)
          | Thrown e m2 => Thrown e m2
          end
      end
  end.
Proof.
  unfold submit. unfold mbind at 1. unfold M_bind at 1.
  rewrite ensureTypeRecords_run.
  unfold mbind at 1. unfold M_bind at 1. unfold Date_now at 1.
  simpl. destruct (targetId a) as [i|]; [|done].
  run_M. rewrite records_of_insert.
  destruct (JsMap.get i _) as [r|]; [|done].
  pose proof (triggerSubmit_store options r (date_now (world m)).1 d ty
    (setWorld (date_now (world m)).2
       (setStore (<[ty := records_of ty (initializedRecords m)]>
                    (initializedRecords m)) m))) as Hst.
  destruct (triggerSubmit _ _ _ _ _ _) as [[] m2|e m2]; [|done].
  run_M. by rewrite Hst, records_of_insert.
Qed.

(** *** The body of the bulk loop *)

Lemma triggerSubmit_trace options r t d ty m :
  trace (final (triggerSubmit options r t d ty m)) =
  trace m ++ dispatchEvents options ty t d [(id r, r)].
Proof.
  unfold triggerSubmit, dispatchEvents, selectHandler.
  destruct (fnValue options ty) as [|slot fn|]; simpl.
  - by rewrite app_nil_r.
  - run_M. unfold host. simpl. by case_match.
  - by rewrite app_nil_r.
Qed.

Lemma submitEach_run options t d ty r m :
  submitEach options ty d t r m =
  match triggerSubmit options r t d ty m with
  | Ok _ m2 =>
      Ok tt (setStore
               (<[ty := JsMap.delete (id r) (records_of ty (initializedRecords m))]>
                  (initializedRecords m)) m2)
  | Thrown e m2 => Thrown e m2
  end.
Proof.
  pose proof (triggerSubmit_store options r t d ty m) as Hst.
  unfold submitEach. unfold mbind at 1. unfold M_bind at 1.
  destruct (triggerSubmit _ _ _ _ _ _) as [[] m2|e m2]; [|done].
  run_M. by rewrite Hst.
Qed.

Lemma forEach_cons ty (body : TrackingInitialRecord → M unit) k r0 rest m :
  forEach ty body ((k, r0) :: rest) m =
  match JsMap.get k (records_of ty (initializedRecords m)) with
  | Some r =>
      match body r m with
      | Ok _ m' => forEach ty body rest m'
      | Thrown e m' => Thrown e m'
      end
  | None => forEach ty body rest m
  end.
Proof. simpl. run_M. by destruct (JsMap.get k _). Qed.

(** The loop only ever deletes from the partition it walks: whatever
    property of the partition deletion preserves still holds when the
    loop ends, normally or not, and no other partition is touched. *)
Lemma forEach_shrinks options t d ty
    (P : list (string * TrackingInitialRecord) → Prop) :
  (∀ k p, P p → P (JsMap.delete k p)) →
  ∀ entries m,
    is_Some (initializedRecords m !! ty) →
    P (records_of ty (initializedRecords m)) →
    ∃ p', P p' ∧
      initializedRecords
        (final (forEach ty (submitEach options ty d t) entries m)) =
      <[ty := p']> (initializedRecords m).
Proof.
  intros HP entries. induction entries as [|[k r0] rest IH]; intros m Hs Hp.
  - exists (records_of ty (initializedRecords m)).
    split; [done|]. simpl. by rewrite insert_records_of.
  - rewrite forEach_cons.
    destruct (JsMap.get k _) as [r|]; [|by apply IH].
    rewrite submitEach_run.
    pose proof (triggerSubmit_store options r t d ty m) as Hst.
    destruct (triggerSubmit _ _ _ _ _ _) as [[] m2|e m2]; simpl in *.
    + edestruct (IH (setStore
        (<[ty := JsMap.delete (id r) (records_of ty (initializedRecords m))]>
           (initializedRecords m)) m2)) as [p' [Hp' Heq]].
      * simpl. rewrite lookup_insert_eq. eauto.
      * simpl. rewrite records_of_insert. by apply HP.
      * exists p'. split; [done|].
        etrans; [exact Heq|]. simpl. by rewrite insert_insert_eq.
    + exists (records_of ty (initializedRecords m)).
      split; [done|]. by rewrite Hst, insert_records_of.
Qed.

(** On a well-formed partition the loop visits every entry once, in
    insertion order, and leaves the partition empty. *)
Lemma forEach_bulk options t d ty entries :
  NoDup entries.*1 →
  Forall (λ e, id e.2 = e.1) entries →
  ∀ m m',
    initializedRecords m !! ty = Some entries →
    forEach ty (submitEach options ty d t) entries m = Ok tt m' →
    initializedRecords m' = <[ty := []]> (initializedRecords m)
    ∧ trace m' = trace m ++ dispatchEvents options ty t d entries.
Proof.
  induction entries as [|[k r] rest IH]; intros Hnd Hid m m' Hs Hrun.
  - simpl in Hrun. injection Hrun as <-. split.
    + by rewrite insert_id.
    + unfold dispatchEvents. destruct (selectHandler options ty) as [[? ?]|];
        by rewrite app_nil_r.
  - apply NoDup_cons in Hnd as [Hnin Hnd].
    apply Forall_cons in Hid as [Hk Hid]. simpl in Hk, Hnin.
    rewrite forEach_cons, (records_of_Some _ _ _ Hs) in Hrun. simpl in Hrun.
    rewrite String.eqb_refl, submitEach_run in Hrun.
    pose proof (triggerSubmit_trace options r t d ty m) as Htr.
    rewrite (records_of_Some _ _ _ Hs) in Hrun.
    destruct (triggerSubmit _ _ _ _ _ _) as [[] m2|e m2]; [|done].
    simpl in Hrun, Htr. rewrite Hk, String.eqb_refl in Hrun.
    rewrite (delete_notin _ _ Hnin) in Hrun.
    apply IH in Hrun as [Hst' Htr']; [|done..|by simpl; rewrite lookup_insert_eq].
    simpl in Hst', Htr'. split.
    + by rewrite Hst', insert_insert_eq.
    + rewrite Htr', Htr. unfold dispatchEvents.
      destruct (selectHandler options ty) as [[slot fn]|]; simpl.
      * by rewrite <- app_assoc.
      * by rewrite !app_nil_r.
Qed.

(** With handlers that do not throw, the loop runs to its end. *)
Lemma forEach_returns options t d ty :
  (∀ slot fn, selectHandler options ty = Some (slot, fn) → neverThrows fn) →
  fnValue options ty ≠ FnNotCallable →
  ∀ entries m, ∃ m',
    forEach ty (submitEach options ty d t) entries m = Ok tt m'.
Proof.
  intros Hfn Hcall entries.
  induction entries as [|[k r0] rest IH]; intros m.
  - by eexists.
  - rewrite forEach_cons.
    destruct (JsMap.get k _) as [r|]; [|by apply IH].
    rewrite submitEach_run.
    destruct (fnValue options ty) as [|slot fn|] eqn:Hval; [| |done].
    + rewrite (triggerSubmit_undefined _ _ _ _ _ _ Hval). apply IH.
    + apply selectHandler_Some in Hval.
      rewrite (triggerSubmit_some _ _ _ _ _ _ _ _ Hval). simpl.
      unfold host. rewrite (Hfn _ _ Hval). apply IH.
Qed.

(** *** What each call does to the storage *)

Lemma submit_shrinks options ty d a m
    (P : list (string * TrackingInitialRecord) → Prop) :
  (∀ k p, P p → P (JsMap.delete k p)) →
  P (records_of ty (initializedRecords m)) →
  ∃ p', P p' ∧
    initializedRecords (final (submit options ty d a m)) =
    <[ty := p']> (initializedRecords m).
Proof.
  intros HP Hp. rewrite submit_run. simpl.
  set (m1 := setWorld _ (setStore _ m)).
  assert (initializedRecords m1 =
          <[ty := records_of ty (initializedRecords m)]> (initializedRecords m))
    as Hm1 by done.
  destruct (targetId a) as [i|].
  - destruct (JsMap.get i _) as [r|]; [|by eauto].
    pose proof (triggerSubmit_store options r (date_now (world m)).1 d ty m1)
      as Hst.
    destruct (triggerSubmit _ _ _ _ _ _) as [[] m2|e m2]; simpl in *.
    + exists (JsMap.delete i (records_of ty (initializedRecords m))).
      split; [by apply HP|]. by rewrite Hst, insert_insert_eq.
    + exists (records_of ty (initializedRecords m)). by rewrite Hst.
  - destruct (forEach_shrinks options (date_now (world m)).1 d ty P HP
                (records_of ty (initializedRecords m)) m1) as [p' [Hp' Heq]].
    + rewrite Hm1, lookup_insert_eq. eauto.
    + by rewrite Hm1, records_of_insert.
    + exists p'. split; [done|]. by rewrite Heq, Hm1, insert_insert_eq.
Qed.

Lemma create_store options ty m :
  initializedRecords (final (create options ty m)) = initializedRecords m
  ∨ ∃ r, id r ∈ (JsMap.set (id r) r (records_of ty (initializedRecords m))).*1
       ∧ type r = ty
       ∧ initializedRecords (final (create options ty m)) =
         <[ty := JsMap.set (id r) r (records_of ty (initializedRecords m))]>
           (initializedRecords m).
Proof.
  rewrite create_run.
  destruct (generateId_store options m) as [Hst _].
  destruct (generateId options m) as [i m1|e m1]; simpl in *; [|by left].
  right.
  exists {| id := i; type := ty; createdAt := (date_now (world m1)).1 |}.
  simpl. split_and!.
  - apply dec_stable. intros Hnin%get_None. by rewrite get_set_eq in Hnin.
  - done.
  - destruct (options_onCreate options) as [f|]; simpl.
    + match goal with
      | |- context [host ?g ?m0] => destruct (host_final g m0) as [Hh _]
      end.
      destruct (host _ _); simpl in *; by rewrite Hh, Hst.
    + by rewrite Hst.
Qed.

(** A partition, once there, is never removed from the outer map. *)
Lemma step_persist options op m ty :
  is_Some (initializedRecords m !! ty) →
  is_Some (initializedRecords (step options m op) !! ty).
Proof.
  intros Hs. destruct op as [ty'|ty' i|ty' d a]; simpl.
  - destruct (create_store options ty' m) as [->|[r (_ & _ & ->)]]; [done|].
    rewrite lookup_insert_is_Some. destruct (decide (ty' = ty)); auto.
  - by rewrite getRecord_store.
  - destruct (submit_shrinks options ty' d a m (λ _, True)) as [p' [_ ->]];
      [done..|].
    rewrite lookup_insert_is_Some. destruct (decide (ty' = ty)); auto.
Qed.

Lemma run_persist options ops m ty :
  is_Some (initializedRecords m !! ty) →
  is_Some (initializedRecords (run options ops m) !! ty).
Proof.
  revert m. induction ops as [|op ops IH]; intros m Hs; [done|].
  simpl. apply IH. by apply step_persist.
Qed.

(** *** The storage invariant is kept *)

Lemma wfRecords_nil ty : wfRecords ty [].
Proof. split; [apply NoDup_nil_2 | apply Forall_nil_2]. Qed.

Lemma wfRecords_delete ty k p : wfRecords ty p → wfRecords ty (JsMap.delete k p).
Proof.
  intros [Hnd Hall]. split; [by apply NoDup_delete|].
  rewrite Forall_forall in Hall |- *.
  intros e He. apply Hall. by eapply elem_of_delete.
Qed.

Lemma wfRecords_set ty r p :
  type r = ty → wfRecords ty p → wfRecords ty (JsMap.set (id r) r p).
Proof.
  intros Hty [Hnd Hall]. split; [by apply NoDup_set|].
  rewrite Forall_forall in Hall |- *.
  intros e [->|He]%elem_of_set; [done|by apply Hall].
Qed.

Lemma wfStore_records_of ty s : wfStore s → wfRecords ty (records_of ty s).
Proof.
  intros Hwf. unfold records_of.
  destruct (s !! ty) as [p|] eqn:Hp; simpl.
  - by apply (Hwf ty p).
  - apply wfRecords_nil.
Qed.

Lemma wfStore_insert ty p s : wfRecords ty p → wfStore s → wfStore (<[ty := p]> s).
Proof. intros Hp Hs. by apply map_Forall_insert_2. Qed.

Lemma wfStore_newTracker w : wfStore (initializedRecords (newTracker w)).
Proof. apply map_Forall_empty. Qed.

Lemma wfStore_step options op m :
  wfStore (initializedRecords m) →
  wfStore (initializedRecords (step options m op)).
Proof.
  intros Hwf. destruct op as [ty|ty i|ty d a]; simpl.
  - destruct (create_store options ty m) as [->|[r (_ & Hty & ->)]]; [done|].
    apply wfStore_insert; [|done].
    apply wfRecords_set; [done|]. by apply wfStore_records_of.
  - by rewrite getRecord_store.
  - destruct (submit_shrinks options ty d a m (wfRecords ty)) as [p' [Hp' ->]].
    + intros k p. apply wfRecords_delete.
    + by apply wfStore_records_of.
    + by apply wfStore_insert.
Qed.

(** Every state a tracker can reach is well formed. *)
Lemma wfStore_run options ops w :
  wfStore (initializedRecords (run options ops (newTracker w))).
Proof.
  revert ops. generalize (newTracker w), (wfStore_newTracker w).
  intros m Hm ops. revert m Hm.
  induction ops as [|op ops IH]; intros m Hm; [done|].
  simpl. apply IH. by apply wfStore_step.
Qed.

(** *** Outcomes of the single calls *)

Lemma create_Ok options ty m r m1 :
  create options ty m = Ok r m1 →
  type r = ty
  ∧ initializedRecords m1 =
    <[ty := JsMap.set (id r) r (records_of ty (initializedRecords m))]>
      (initializedRecords m).
Proof.
  rewrite create_run.
  destruct (generateId_store options m) as [Hst _].
  destruct (generateId options m) as [i m0|e m0]; [|done]. simpl in *.
  destruct (options_onCreate options) as [f|].
  - match goal with
    | |- context [host ?g ?m0] => destruct (host_final g m0) as [Hh _]
    end.
    destruct (host _ _) as [[] m3|e m3]; [|done].
    intros [= <- <-]. simpl in *. by rewrite Hh, Hst.
  - intros [= <- <-]. simpl. by rewrite Hst.
Qed.

(** Once the generator has returned, the new record is stored, whether
    or not [onCreate] then throws. *)
Lemma create_generated options ty m i m1 :
  generateId options m = Ok i m1 →
  initializedRecords (final (create options ty m)) =
  <[ty := JsMap.set i {| id := i; type := ty;
                         createdAt := (date_now (world m1)).1 |}
            (records_of ty (initializedRecords m))]>
    (initializedRecords m).
Proof.
  intros Hgen. rewrite create_run.
  destruct (generateId_store options m) as [Hst _].
  rewrite Hgen in Hst |- *. simpl in *.
  destruct (options_onCreate options) as [f|]; simpl; [|by rewrite Hst].
  match goal with
  | |- context [host ?g ?m0] => destruct (host_final g m0) as [Hh _]
  end.
  destruct (host _ _); simpl in *; by rewrite Hh, Hst.
Qed.

(** A single-mode [submit] that finds nothing. *)
Lemma submit_missing options ty d a i m :
  targetId a = Some i →
  JsMap.get i (records_of ty (initializedRecords m)) = None →
  submit options ty d a m =
  Ok tt (logged (Warn (msgNotFound i ty))
           (setWorld (date_now (world m)).2
              (setStore (<[ty := records_of ty (initializedRecords m)]>
                           (initializedRecords m)) m))).
Proof. intros Ha Hi. rewrite submit_run. simpl. by rewrite Ha, Hi. Qed.

(** A bulk [submit] that returns, on well-formed storage. *)
Lemma submit_bulk options ty d a m m' :
  wfStore (initializedRecords m) →
  targetId a = None →
  submit options ty d a m = Ok tt m' →
  initializedRecords m' = <[ty := []]> (initializedRecords m)
  ∧ trace m' =
    trace m ++ dispatchEvents options ty (date_now (world m)).1 d
                 (records_of ty (initializedRecords m)).
Proof.
  intros Hwf Ha. rewrite submit_run. simpl. rewrite Ha. intros Hrun.
  destruct (wfStore_records_of ty _ Hwf) as [Hnd Hall].
  apply forEach_bulk in Hrun as [Hst Htr]; simpl.
  - split; [|done]. by rewrite Hst; simpl; rewrite insert_insert_eq.
  - done.
  - eapply Forall_impl; [exact Hall|]. by intros e [? _].
  - by rewrite lookup_insert_eq.
Qed.

(** A bulk [submit] over an empty or absent partition. *)
Lemma submit_bulk_empty options ty d a m :
  targetId a = None →
  records_of ty (initializedRecords m) = [] →
  submit options ty d a m =
  Ok tt (setWorld (date_now (world m)).2
           (setStore (<[ty := []]> (initializedRecords m)) m)).
Proof. intros Ha Hp. rewrite submit_run. simpl. by rewrite Ha, Hp. Qed.

(** With handlers that do not throw, [submit] returns. *)
Lemma submit_returns options ty d a m :
  (∀ slot fn, selectHandler options ty = Some (slot, fn) → neverThrows fn) →
  fnValue options ty ≠ FnNotCallable →
  ∃ m', submit options ty d a m = Ok tt m'.
Proof.
  intros Hfn Hcall. rewrite submit_run. simpl.
  destruct (targetId a) as [i|]; [|by apply forEach_returns].
  destruct (JsMap.get i _) as [r|]; [|by eexists].
  destruct (fnValue options ty) as [|slot fn|] eqn:Hval; [| |done].
  - rewrite (triggerSubmit_undefined _ _ _ _ _ _ Hval). by eexists.
  - apply selectHandler_Some in Hval.
    rewrite (triggerSubmit_some _ _ _ _ _ _ _ _ Hval). simpl.
    unfold host. rewrite (Hfn _ _ Hval). by eexists.
Qed.

Lemma submitCalls_app tr1 tr2 :
  submitCalls (tr1 ++ tr2) = submitCalls tr1 ++ submitCalls tr2.
Proof. unfold submitCalls. apply omap_app. Qed.

Lemma warnings_app tr1 tr2 : warnings (tr1 ++ tr2) = warnings tr1 ++ warnings tr2.
Proof. unfold warnings. apply omap_app. Qed.

Lemma submitCalls_dispatchEvents options ty t d entries slot fn :
  selectHandler options ty = Some (slot, fn) →
  submitCalls (dispatchEvents options ty t d entries) =
  (λ e, (slot, {| initial := e.2; submittedAt := t; data := d |})) <$> entries.
Proof.
  unfold dispatchEvents, submitCalls. intros ->.
  induction entries as [|e entries IH]; [done|].
  rewrite !fmap_cons. simpl. by f_equal.
Qed.

Lemma dispatchEvents_none options ty t d entries :
  selectHandler options ty = None → dispatchEvents options ty t d entries = [].
Proof. unfold dispatchEvents. by intros ->. Qed.

Lemma warnings_dispatchEvents options ty t d entries :
  warnings (dispatchEvents options ty t d entries) = [].
Proof.
  unfold dispatchEvents, warnings.
  destruct (selectHandler options ty) as [[slot fn]|]; [|done].
  by induction entries as [|e entries IH].
Qed.

(** A single-mode [submit] that finds its record. *)
Lemma submit_found options ty d a i r m :
  targetId a = Some i →
  JsMap.get i (records_of ty (initializedRecords m)) = Some r →
  submit options ty d a m =
  match triggerSubmit options r (date_now (world m)).1 d ty
          (setWorld (date_now (world m)).2
             (setStore (<[ty := records_of ty (initializedRecords m)]>
                          (initializedRecords m)) m)) with
  | Ok _ m2 =>
      Ok tt (setStore
               (<[ty := JsMap.delete i (records_of ty (initializedRecords m))]>
                  (initializedRecords m)) m2)
  | Thrown e m2 => Thrown e m2
  end.
Proof.
  intros Ha Hi. rewrite submit_run. simpl. rewrite Ha, Hi.
  match goal with
  | |- context [triggerSubmit ?o ?r0 ?t ?d0 ?ty0 ?m0] =>
      pose proof (triggerSubmit_store o r0 t d0 ty0 m0) as Hst
  end.
  destruct (triggerSubmit _ _ _ _ _ _) as [[] m2|e m2]; [|done].
  simpl in Hst. by rewrite Hst, insert_insert_eq.
Qed.

Lemma targetId_resolved a i :
  resolveId a = Some i →
  targetId a = if String.eqb i "" then None else Some i.
Proof. unfold targetId. intros ->. simpl. by destruct (String.eqb i ""). Qed.

(** Once a [submit] aimed at [i] has returned, nothing is stored under
    [i]; with the empty id, which selects the bulk branch, nothing is
    stored in the partition at all. *)
Lemma submit_consumes options ty d a i m m' :
  wfStore (initializedRecords m) →
  resolveId a = Some i →
  submit options ty d a m = Ok tt m' →
  is_Some (initializedRecords m' !! ty)
  ∧ JsMap.get i (records_of ty (initializedRecords m')) = None
  ∧ (i = "" → records_of ty (initializedRecords m') = []).
Proof.
  intros Hwf Ha%targetId_resolved Hrun.
  destruct (String.eqb_spec i "") as [->|Hne].
  - apply submit_bulk in Hrun as [-> _]; [|done..].
    by rewrite records_of_insert, lookup_insert_eq.
  - destruct (JsMap.get i (records_of ty (initializedRecords m)))
      as [r|] eqn:Hi.
    + rewrite (submit_found _ _ _ _ _ _ _ Ha Hi) in Hrun.
      destruct (triggerSubmit _ _ _ _ _ _) as [[] m2|e m2]; [|done].
      injection Hrun as <-. simpl.
      by rewrite records_of_insert, lookup_insert_eq, get_delete_eq.
    + rewrite (submit_missing _ _ _ _ _ _ Ha Hi) in Hrun.
      injection Hrun as <-. simpl.
      by rewrite records_of_insert, lookup_insert_eq.
Qed.

(** An id that is absent stays absent until the generator returns it. *)
Lemma step_keeps_absent options op m ty i :
  neverGenerates options i [op] m →
  JsMap.get i (records_of ty (initializedRecords m)) = None →
  JsMap.get i (records_of ty (initializedRecords (step options m op))) = None.
Proof.
  intros [Hop _] Hi. destruct op as [ty'|ty' i'|ty' d a]; simpl.
  - destruct (generateId options m) as [i' m1|e m1] eqn:Hgen.
    + rewrite (create_generated _ _ _ _ _ Hgen).
      destruct (decide (ty' = ty)) as [->|Hne].
      * rewrite records_of_insert, get_set_ne; [done|]. by eapply Hop.
      * by rewrite records_of_insert_ne.
    + destruct (generateId_store options m) as [Hst _].
      rewrite create_run, Hgen. rewrite Hgen in Hst. simpl in *.
      by rewrite Hst.
  - by rewrite getRecord_store.
  - destruct (decide (ty' = ty)) as [->|Hne].
    + destruct (submit_shrinks options ty d a m (λ p', JsMap.get i p' = None))
        as [p' [Hp' ->]]; [|done|by rewrite records_of_insert].
      intros k p Hp. destruct (JsMap.get i (JsMap.delete k p)) eqn:Hd; [|done].
      apply get_delete_Some in Hd. congruence.
    + destruct (submit_shrinks options ty' d a m (λ _, True))
        as [p' [_ ->]]; [done..|].
      by rewrite records_of_insert_ne.
Qed.

Lemma run_keeps_absent options ops m ty i :
  neverGenerates options i ops m →
  JsMap.get i (records_of ty (initializedRecords m)) = None →
  JsMap.get i (records_of ty (initializedRecords (run options ops m))) = None.
Proof.
  revert m. induction ops as [|op ops IH]; intros m Hops Hi; [done|].
  destruct Hops as [Hop Hops]. simpl. apply IH; [done|].
  by apply step_keeps_absent.
Qed.

(** *** What a [submit] can dispatch *)

Lemma since_app m m' evs : trace m' = trace m ++ evs → since m m' = evs.
Proof. unfold since. intros ->. by rewrite drop_app_length. Qed.

(** The loop calls the handler only on records it finds in the
    partition. *)
Lemma forEach_calls_stored options t d ty entries :
  ∀ m, ∃ evs,
    trace (final (forEach ty (submitEach options ty d t) entries m)) =
    trace m ++ evs
    ∧ ∀ slot sr, (slot, sr) ∈ submitCalls evs →
        ∃ k, JsMap.get k (records_of ty (initializedRecords m)) =
             Some (initial sr).
Proof.
  induction entries as [|[k r0] rest IH]; intros m.
  - exists []. split; [by rewrite app_nil_r|]. by intros ?? ?%elem_of_nil.
  - rewrite forEach_cons.
    destruct (JsMap.get k _) as [r|] eqn:Hk; [|by apply IH].
    rewrite submitEach_run.
    pose proof (triggerSubmit_trace options r t d ty m) as Htr.
    assert (∀ slot sr,
      (slot, sr) ∈ submitCalls (dispatchEvents options ty t d [(id r, r)]) →
      initial sr = r) as Hone.
    { intros slot sr. unfold dispatchEvents.
      destruct (selectHandler options ty) as [[slot' fn]|]; simpl.
      - by intros [= _ ->]%list_elem_of_singleton.
      - by intros ?%elem_of_nil. }
    destruct (triggerSubmit _ _ _ _ _ _) as [[] m2|e m2]; simpl in Htr.
    + match goal with
      | |- context [forEach _ _ rest ?m0] => destruct (IH m0) as [evs [He Hin]]
      end.
      simpl in He, Hin. rewrite records_of_insert in Hin.
      exists (dispatchEvents options ty t d [(id r, r)] ++ evs). split.
      * by rewrite He, Htr, app_assoc.
      * intros slot sr. rewrite submitCalls_app, elem_of_app.
        intros [Hc|Hc].
        -- exists k. by rewrite (Hone _ _ Hc).
        -- destruct (Hin _ _ Hc) as [k' Hk']. exists k'.
           by eapply get_delete_Some.
    + exists (dispatchEvents options ty t d [(id r, r)]). split; [done|].
      intros slot sr Hc. exists k. by rewrite (Hone _ _ Hc).
Qed.

(** On well-formed storage, every handler call a [submit] makes is on
    a record stored under its own id in the partition of the type. *)
Lemma submit_calls_stored options ty d a m slot sr :
  wfStore (initializedRecords m) →
  (slot, sr) ∈ submitCalls (since m (final (submit options ty d a m))) →
  JsMap.get (id (initial sr)) (records_of ty (initializedRecords m)) =
  Some (initial sr).
Proof.
  intros Hwf.
  assert (∀ k r, JsMap.get k (records_of ty (initializedRecords m)) = Some r →
                 id r = k) as Hkey.
  { intros k r Hk%get_Some_elem.
    destruct (wfStore_records_of ty _ Hwf) as [_ Hall].
    rewrite Forall_forall in Hall. by destruct (Hall _ Hk). }
  rewrite submit_run. simpl.
  set (m1 := setWorld _ (setStore _ m)).
  destruct (targetId a) as [i|].
  - destruct (JsMap.get i _) as [r|] eqn:Hi.
    + pose proof (triggerSubmit_trace options r (date_now (world m)).1 d ty m1)
        as Htr.
      assert (since m (final
        match triggerSubmit options r (date_now (world m)).1 d ty m1 with
        | Ok _ m2 =>
            Ok tt (setStore
              (<[ty := JsMap.delete i (records_of ty (initializedRecords m))]>
                 (initializedRecords m2)) m2)
        | Thrown e m2 => Thrown e m2
        end) = dispatchEvents options ty (date_now (world m)).1 d [(id r, r)])
        as ->.
      { apply since_app.
        by destruct (triggerSubmit _ _ _ _ _ _) as [[] m2|e m2]. }
      unfold dispatchEvents.
      destruct (selectHandler options ty) as [[slot' fn]|]; simpl.
      * intros [= _ ->]%list_elem_of_singleton. simpl.
        by rewrite (Hkey _ _ Hi).
      * by intros ?%elem_of_nil.
    + rewrite (since_app _ _ [Warn (msgNotFound i ty)]); [|done].
      by intros ?%elem_of_nil.
  - destruct (forEach_calls_stored options (date_now (world m)).1 d ty
                (records_of ty (initializedRecords m)) m1) as [evs [He Hin]].
    rewrite (since_app _ _ evs); [|done].
    intros [k Hk]%Hin. simpl in Hk. rewrite records_of_insert in Hk.
    by rewrite (Hkey _ _ Hk).
Qed.

Lemma wfStore_run_from options ops m :
  wfStore (initializedRecords m) →
  wfStore (initializedRecords (run options ops m)).
Proof.
  revert m. induction ops as [|op ops IH]; intros m Hm; [done|].
  simpl. apply IH. by apply wfStore_step.
Qed.

(** *** Which function is called *)

Lemma selectHandler_global options ty f :
  options_onSubmit options = Some (Global f) →
  selectHandler options ty = Some (None, f).
Proof. unfold selectHandler, fnValue. by intros ->. Qed.

Lemma selectHandler_own options ty table f :
  options_onSubmit options = Some (PerType table) →
  table !! ty = Some f →
  selectHandler options ty = Some (Some ty, f).
Proof. unfold selectHandler, fnValue. by intros -> ->. Qed.

Lemma fnValue_undefined options ty :
  options_onSubmit options = None
  ∨ (∃ table, options_onSubmit options = Some (PerType table)
              ∧ table !! ty = None ∧ objectPrototype ty = None) →
  fnValue options ty = FnUndefined.
Proof.
  unfold fnValue. intros [->|(table & -> & -> & ->)]; done.
Qed.

Lemma triggerSubmit_world options r t d ty m :
  world (final (triggerSubmit options r t d ty m)) =
  match selectHandler options ty with
  | Some (_, fn) =>
      (fn {| initial := r; submittedAt := t; data := d |} (world m)).2
  | None => world m
  end.
Proof.
  unfold triggerSubmit, selectHandler.
  destruct (fnValue options ty) as [|slot fn|]; [done| |done].
  run_M. unfold host. simpl. by case_match.
Qed.

(** On a well-formed partition the loop runs the selected function on
    every entry in turn. *)
Lemma forEach_bulk_world options t d ty slot fn entries :
  selectHandler options ty = Some (slot, fn) →
  NoDup entries.*1 →
  Forall (λ e, id e.2 = e.1) entries →
  ∀ m m',
    initializedRecords m !! ty = Some entries →
    forEach ty (submitEach options ty d t) entries m = Ok tt m' →
    world m' =
    worldAfterCalls fn
      ((λ e, {| initial := e.2; submittedAt := t; data := d |}) <$> entries)
      (world m).
Proof.
  intros Hsel.
  induction entries as [|[k r] rest IH]; intros Hnd Hid m m' Hs Hrun.
  - simpl in Hrun. by injection Hrun as <-.
  - apply NoDup_cons in Hnd as [Hnin Hnd].
    apply Forall_cons in Hid as [Hk Hid]. simpl in Hk, Hnin.
    rewrite forEach_cons, (records_of_Some _ _ _ Hs) in Hrun. simpl in Hrun.
    rewrite String.eqb_refl, submitEach_run in Hrun.
    pose proof (triggerSubmit_world options r t d ty m) as Hw.
    rewrite Hsel in Hw. rewrite (records_of_Some _ _ _ Hs) in Hrun.
    destruct (triggerSubmit _ _ _ _ _ _) as [[] m2|e m2]; [|done].
    simpl in Hrun, Hw. rewrite Hk, String.eqb_refl in Hrun.
    rewrite (delete_notin _ _ Hnin) in Hrun.
    apply IH in Hrun; [|done..|by simpl; rewrite lookup_insert_eq].
    rewrite Hrun. simpl. by rewrite Hw.
Qed.

(** The handler calls of a bulk [submit] that returns on well-formed
    storage, for the function [triggerSubmit] selects. *)
Lemma submit_bulk_calls options ty d a m m' slot fn :
  wfStore (initializedRecords m) →
  targetId a = None →
  submit options ty d a m = Ok tt m' →
  selectHandler options ty = Some (slot, fn) →
  submitCalls (trace m') =
    submitCalls (trace m) ++
      ((λ e, (slot, {| initial := e.2;
                       submittedAt := (date_now (world m)).1;
                       data := d |})) <$>
       records_of ty (initializedRecords m))
  ∧ length (submitCalls (trace m')) =
    length (submitCalls (trace m)) +
    length (records_of ty (initializedRecords m))
  ∧ world m' =
    worldAfterCalls fn
      ((λ e, {| initial := e.2;
                submittedAt := (date_now (world m)).1;
                data := d |}) <$> records_of ty (initializedRecords m))
      (date_now (world m)).2.
Proof.
  intros Hwf Ha Hrun Hsel.
  destruct (submit_bulk _ _ _ _ _ _ Hwf Ha Hrun) as [_ Htr].
  assert (submitCalls (trace m') =
    submitCalls (trace m) ++
      ((λ e, (slot, {| initial := e.2;
                       submittedAt := (date_now (world m)).1;
                       data := d |})) <$>
       records_of ty (initializedRecords m))) as Hcalls.
  { by rewrite Htr, submitCalls_app,
      (submitCalls_dispatchEvents _ _ _ _ _ _ _ Hsel). }
  split_and!; [done|by rewrite Hcalls, length_app, length_fmap|].
  revert Hrun. rewrite submit_run. simpl. rewrite Ha. intros Hrun.
  destruct (wfStore_records_of ty _ Hwf) as [Hnd Hall].
  eapply forEach_bulk_world in Hrun; [exact Hrun|done|done| |].
  - eapply Forall_impl; [exact Hall|]. by intros ? [? _].
  - simpl. by rewrite lookup_insert_eq.
Qed.

(** ** The claims *)

(** C1. Submission is consuming: after [r = create type] and a [submit]
    aimed at [r.id] (as a string or as the record) have returned,
    [getRecord type r.id] returns null with the missing-id warning;
    and from then on, until the id generator returns [r.id] again, the
    id stays absent and no [submit] of the type, whatever its argument
    and however it ends, calls a handler on a record with that id. *)
Theorem consuming_submit options ty d a m r m1 m2 :
  wfStore (initializedRecords m) →
  create options ty m = Ok r m1 →
  resolveId a = Some (id r) →
  submit options ty d a m1 = Ok tt m2 →
  getRecord ty (id r) m2 = Ok None (logged (Warn (msgNotFound (id r) ty)) m2)
  ∧ ∀ ops, neverGenerates options (id r) ops m2 →
      JsMap.get (id r)
        (records_of ty (initializedRecords (run options ops m2))) = None
      ∧ ∀ d' a' slot sr,
          (slot, sr) ∈ submitCalls
            (since (run options ops m2)
               (final (submit options ty d' a' (run options ops m2)))) →
          id (initial sr) ≠ id r.
Proof.
  intros Hwf Hcreate Ha Hsubmit.
  assert (wfStore (initializedRecords m1)) as Hwf1.
  { pose proof (wfStore_step options (OpCreate ty) m Hwf) as Hstep.
    simpl in Hstep. by rewrite Hcreate in Hstep. }
  assert (wfStore (initializedRecords m2)) as Hwf2.
  { pose proof (wfStore_step options (OpSubmit ty d a) m1 Hwf1) as Hstep.
    simpl in Hstep. by rewrite Hsubmit in Hstep. }
  destruct (submit_consumes _ _ _ _ _ _ _ Hwf1 Ha Hsubmit)
    as ([p Hp] & Hgone & _).
  split.
  - rewrite getRecord_run, Hp.
    by rewrite (records_of_Some _ _ _ Hp) in Hgone; rewrite Hgone.
  - intros ops Hops.
    pose proof (run_keeps_absent _ _ _ ty _ Hops Hgone) as Habsent.
    split; [done|]. intros d' a' slot sr Hcall Hid.
    apply submit_calls_stored in Hcall; [|by apply wfStore_run_from].
    rewrite Hid in Hcall. congruence.
Qed.

(** C2. Bulk submit clears the partition: when a [submit] that
    resolves no id returns, the configured handler (the single
    [onSubmit] function, or the table's entry for this very type) has
    been run once per record stored under the type, in storage order,
    each time with the supplied data, so exactly N times for N stored
    records, and the host is in the state those N runs leave; no
    warning has been emitted; the partition is empty, so every id now
    reads as not found; and with zero records stored nothing is
    emitted at all and no partition's records change. *)
Theorem bulk_submit_clears_partition options ty d a m m' :
  wfStore (initializedRecords m) →
  targetId a = None →
  submit options ty d a m = Ok tt m' →
  (∀ f, options_onSubmit options = Some (Global f) →
     submitCalls (trace m') =
       submitCalls (trace m) ++
         ((λ e, (None, {| initial := e.2;
                          submittedAt := (date_now (world m)).1;
                          data := d |})) <$>
          records_of ty (initializedRecords m))
     ∧ length (submitCalls (trace m')) =
       length (submitCalls (trace m)) +
       length (records_of ty (initializedRecords m))
     ∧ world m' =
       worldAfterCalls f
         ((λ e, {| initial := e.2;
                   submittedAt := (date_now (world m)).1;
                   data := d |}) <$> records_of ty (initializedRecords m))
         (date_now (world m)).2)
  ∧ (∀ table f, options_onSubmit options = Some (PerType table) →
       table !! ty = Some f →
       submitCalls (trace m') =
         submitCalls (trace m) ++
           ((λ e, (Some ty, {| initial := e.2;
                               submittedAt := (date_now (world m)).1;
                               data := d |})) <$>
            records_of ty (initializedRecords m))
       ∧ length (submitCalls (trace m')) =
         length (submitCalls (trace m)) +
         length (records_of ty (initializedRecords m))
       ∧ world m' =
         worldAfterCalls f
           ((λ e, {| initial := e.2;
                     submittedAt := (date_now (world m)).1;
                     data := d |}) <$> records_of ty (initializedRecords m))
           (date_now (world m)).2)
  ∧ warnings (trace m') = warnings (trace m)
  ∧ initializedRecords m' = <[ty := []]> (initializedRecords m)
  ∧ (∀ i, getRecord ty i m' = Ok None (logged (Warn (msgNotFound i ty)) m'))
  ∧ (records_of ty (initializedRecords m) = [] →
       trace m' = trace m
       ∧ ∀ ty', records_of ty' (initializedRecords m') =
                records_of ty' (initializedRecords m)).
Proof.
  intros Hwf Ha Hrun.
  destruct (submit_bulk _ _ _ _ _ _ Hwf Ha Hrun) as [Hst Htr].
  split_and!.
  - intros f Hf. eapply submit_bulk_calls; [done..|].
    by apply selectHandler_global.
  - intros table f Htab Hf. eapply submit_bulk_calls; [done..|].
    by eapply selectHandler_own.
  - by rewrite Htr, warnings_app, warnings_dispatchEvents, app_nil_r.
  - done.
  - intros i. by rewrite getRecord_run, Hst, lookup_insert_eq.
  - intros Hnil. split.
    + rewrite Htr, Hnil. unfold dispatchEvents.
      destruct (selectHandler options ty) as [[? ?]|]; by rewrite app_nil_r.
    + intros ty'. rewrite Hst, <- Hnil. apply records_of_ensured.
Qed.

(** C3. Removal is meant to be independent of handler presence, but
    the code misses a case: when [onSubmit] is a table with no entry of
    its own for the type and the type names a member the table
    inherits from [Object.prototype] that throws when called this way
    or cannot be called at all, the dispatch step does not silently do
    nothing: a single-mode [submit] that found its record throws a
    [TypeError] and the record is not removed. *)
Theorem removal_fails_on_inherited_member options table ty d a i r m :
  options_onSubmit options = Some (PerType table) →
  table !! ty = None →
  objectPrototype ty = Some BuiltinThrows
  ∨ objectPrototype ty = Some NotCallable →
  targetId a = Some i →
  JsMap.get i (records_of ty (initializedRecords m)) = Some r →
  ∃ m', submit options ty d a m = Thrown TypeError m'
    ∧ JsMap.get i (records_of ty (initializedRecords m')) = Some r
    ∧ records_of ty (initializedRecords m') =
      records_of ty (initializedRecords m).
Proof.
  intros Htab Hown Hproto Ha Hi.
  rewrite (submit_found _ _ _ _ _ _ _ Ha Hi).
  unfold triggerSubmit, fnValue. rewrite Htab, Hown.
  destruct Hproto as [-> | ->].
  - run_M. unfold host. simpl. eexists. split; [done|]. simpl.
    by rewrite records_of_insert.
  - unfold throw. eexists. split; [done|]. simpl.
    by rewrite records_of_insert.
Qed.

(** C4, as amended. A failed lookup keeps every stored record: a
    [getRecord] that returns null leaves the storage and the host
    exactly as they were and only adds a warning; a single-mode
    [submit] that finds no record returns after adding only the
    missing-id warning, leaves every partition with the records it
    had, and changes the storage in one way only: the partition of its
    type, if it did not exist, now exists and is empty. *)
Theorem failed_lookup_keeps_records options ty i d a m :
  (∀ m', getRecord ty i m = Ok None m' →
     initializedRecords m' = initializedRecords m
     ∧ world m' = world m
     ∧ ∃ msg, trace m' = trace m ++ [Warn msg])
  ∧ (targetId a = Some i →
     JsMap.get i (records_of ty (initializedRecords m)) = None →
     ∃ m', submit options ty d a m = Ok tt m'
       ∧ trace m' = trace m ++ [Warn (msgNotFound i ty)]
       ∧ (∀ ty', records_of ty' (initializedRecords m') =
                 records_of ty' (initializedRecords m))
       ∧ (∀ ty', ty' ≠ ty →
            initializedRecords m' !! ty' = initializedRecords m !! ty')
       ∧ (is_Some (initializedRecords m !! ty) →
            initializedRecords m' = initializedRecords m)
       ∧ (initializedRecords m !! ty = None →
            initializedRecords m' = <[ty := []]> (initializedRecords m))).
Proof.
  split.
  - intros m'. rewrite getRecord_run.
    destruct (initializedRecords m !! ty) as [p|].
    + destruct (JsMap.get i p); [done|]. intros [= <-]. simpl. eauto.
    + intros [= <-]. simpl. eauto.
  - intros Ha Hi. eexists. split; [by apply submit_missing|]. simpl.
    split_and!.
    + done.
    + intros ty'. apply records_of_ensured.
    + intros ty' Hne. by rewrite lookup_insert_ne.
    + apply insert_records_of.
    + intros Hnone. by rewrite (records_of_None _ _ Hnone).
Qed.

(** C5, as amended. A type's partition comes into existence with the
    first [create] or [submit] that references the type ([create]
    stores it once the id generator has returned, [submit] at once);
    [getRecord] never changes the storage, so it creates nothing; and
    a partition that exists persists through every later call, also
    after a bulk [submit] has emptied it. *)
Theorem partition_lifetime options ty m :
  (∀ i m1, generateId options m = Ok i m1 →
     is_Some (initializedRecords (final (create options ty m)) !! ty))
  ∧ (∀ d a, is_Some (initializedRecords (final (submit options ty d a m)) !! ty))
  ∧ (∀ i, initializedRecords (final (getRecord ty i m)) = initializedRecords m)
  ∧ (∀ ops, is_Some (initializedRecords m !! ty) →
       is_Some (initializedRecords (run options ops m) !! ty))
  ∧ (∀ d a m' ops, wfStore (initializedRecords m) → targetId a = None →
       submit options ty d a m = Ok tt m' →
       initializedRecords m' !! ty = Some []
       ∧ is_Some (initializedRecords (run options ops m') !! ty)).
Proof.
  split_and!.
  - intros i m1 Hgen.
    rewrite (create_generated _ _ _ _ _ Hgen), lookup_insert_eq. eauto.
  - intros d a.
    destruct (submit_shrinks options ty d a m (λ _, True)) as [p' [_ ->]];
      [done..|].
    rewrite lookup_insert_eq. eauto.
  - intros i. apply getRecord_store.
  - intros ops. apply run_persist.
  - intros d a m' ops Hwf Ha Hrun.
    destruct (submit_bulk _ _ _ _ _ _ Hwf Ha Hrun) as [Hst _].
    assert (initializedRecords m' !! ty = Some []) as Hty
      by (by rewrite Hst, lookup_insert_eq).
    split; [done|]. apply run_persist. eauto.
Qed.

(** C6. Round-trip read: once [create type] has returned [r],
    [getRecord type r.id] returns [r] itself, emits nothing and leaves the
    machine as it was, so the record is still stored afterwards and a
    second read returns it again. *)
Theorem round_trip_read options ty m r m1 :
  create options ty m = Ok r m1 →
  getRecord ty (id r) m1 = Ok (Some r) m1
  ∧ JsMap.get (id r)
      (records_of ty (initializedRecords (final (getRecord ty (id r) m1)))) =
    Some r
  ∧ getRecord ty (id r) (final (getRecord ty (id r) m1)) = Ok (Some r) m1.
Proof.
  intros [_ Hst]%create_Ok.
  assert (getRecord ty (id r) m1 = Ok (Some r) m1) as Hget.
  { by rewrite getRecord_run, Hst, lookup_insert_eq, get_set_eq. }
  rewrite Hget. simpl. split_and!; [done| |done].
  by rewrite Hst, records_of_insert, get_set_eq.
Qed.

(** C7. [getRecord] never throws and warns precisely on failure: with
    no partition for the type it warns "No records found for type
    {type}" and returns null; with a partition that lacks the id it
    warns "Record with id {id} not found for type {type}" and returns
    null; otherwise it returns the stored record and changes nothing. *)
Theorem getRecord_warns_precisely ty i m :
  (initializedRecords m !! ty = None →
     getRecord ty i m = Ok None (logged (Warn (msgNoRecords ty)) m))
  ∧ (∀ p, initializedRecords m !! ty = Some p → JsMap.get i p = None →
       getRecord ty i m = Ok None (logged (Warn (msgNotFound i ty)) m))
  ∧ (∀ p r, initializedRecords m !! ty = Some p → JsMap.get i p = Some r →
       getRecord ty i m = Ok (Some r) m)
  ∧ (∃ o m', getRecord ty i m = Ok o m')
  ∧ msgNoRecords ty = "No records found for type " +:+ ty
  ∧ msgNotFound i ty =
    "Record with id " +:+ i +:+ " not found for type " +:+ ty.
Proof.
  rewrite getRecord_run. split_and!; try done.
  - by intros ->.
  - by intros p -> ->.
  - by intros p r -> ->.
  - destruct (initializedRecords m !! ty) as [p|]; [|by eauto].
    destruct (JsMap.get i p); by eauto.
Qed.

(** C8. A single-mode [submit] on an id with no record in the type's
    partition returns after emitting exactly the warning "Record with
    id {id} not found for type {type}": no submission handler is
    called and every partition holds the records it held before. *)
Theorem missing_id_submit_warns options ty d a i m :
  targetId a = Some i →
  JsMap.get i (records_of ty (initializedRecords m)) = None →
  ∃ m', submit options ty d a m = Ok tt m'
    ∧ trace m' = trace m ++ [Warn (msgNotFound i ty)]
    ∧ submitCalls (trace m') = submitCalls (trace m)
    ∧ ∀ ty', records_of ty' (initializedRecords m') =
             records_of ty' (initializedRecords m).
Proof.
  intros Ha Hi. eexists. split; [by apply submit_missing|]. simpl.
  split_and!; [done| |].
  - by rewrite submitCalls_app, app_nil_r.
  - intros ty'. apply records_of_ensured.
Qed.

(** C9. Resolution of [idOrRecord]: a string is the target id, an
    object gives its [id] field, and an omitted argument, an object
    without a usable [id] and an empty-string id all resolve to no id;
    [submit] with no id is the bulk call, and [submit] with an id is
    the single call on that id.  The resolved id is what [submit] acts
    on: with an id it warns about that very id when nothing is stored
    under it, and otherwise dispatches the record stored under it and
    removes that entry and no other; with no id it dispatches and
    removes every record of the type. *)
Theorem idOrRecord_resolution :
  (∀ x, resolveId (ArgString x) = Some x)
  ∧ (∀ r, resolveId (ArgRecord r) = Some (id r))
  ∧ (∀ x, x ≠ "" → targetId (ArgString x) = Some x)
  ∧ (∀ r, id r ≠ "" → targetId (ArgRecord r) = Some (id r))
  ∧ targetId ArgOmitted = None
  ∧ targetId (ArgObject None) = None
  ∧ targetId (ArgString "") = None
  ∧ targetId (ArgObject (Some "")) = None
  ∧ (∀ options ty d a m, targetId a = None →
       submit options ty d a m = submit options ty d ArgOmitted m
       ∧ submit options ty d a m =
         forEach ty (submitEach options ty d (date_now (world m)).1)
           (records_of ty (initializedRecords m))
           (setWorld (date_now (world m)).2
              (setStore (<[ty := records_of ty (initializedRecords m)]>
                           (initializedRecords m)) m)))
  ∧ (∀ options ty d a i m, targetId a = Some i →
       i ≠ "" ∧ submit options ty d a m = submit options ty d (ArgString i) m)
  ∧ (∀ options ty d a i m, targetId a = Some i →
       (JsMap.get i (records_of ty (initializedRecords m)) = None →
          ∃ m', submit options ty d a m = Ok tt m'
            ∧ since m m' = [Warn (msgNotFound i ty)]
            ∧ records_of ty (initializedRecords m') =
              records_of ty (initializedRecords m))
       ∧ (∀ r m',
            JsMap.get i (records_of ty (initializedRecords m)) = Some r →
            submit options ty d a m = Ok tt m' →
            since m m' =
              dispatchEvents options ty (date_now (world m)).1 d [(i, r)]
            ∧ records_of ty (initializedRecords m') =
              JsMap.delete i (records_of ty (initializedRecords m))))
  ∧ (∀ options ty d a m m', targetId a = None →
       wfStore (initializedRecords m) →
       submit options ty d a m = Ok tt m' →
       since m m' =
         dispatchEvents options ty (date_now (world m)).1 d
           (records_of ty (initializedRecords m))
       ∧ initializedRecords m' = <[ty := []]> (initializedRecords m)).
Proof.
  assert (∀ x, x ≠ "" → truthy (Some x) = true) as Htruthy.
  { intros x Hx. simpl. by destruct (String.eqb_spec x ""). }
  split_and!; try done.
  - intros x Hx. unfold targetId. simpl resolveId. by rewrite Htruthy.
  - intros r Hr. unfold targetId. simpl resolveId. by rewrite Htruthy.
  - intros options ty d a m Ha. rewrite !submit_run. simpl. by rewrite Ha.
  - intros options ty d a i m Ha.
    assert (i ≠ "") as Hi.
    { unfold targetId in Ha. destruct (resolveId a) as [x|]; [|done].
      simpl in Ha. destruct (String.eqb_spec x ""); simpl in Ha; congruence. }
    split; [done|]. rewrite !submit_run. simpl. rewrite Ha.
    unfold targetId. simpl resolveId. by rewrite Htruthy.
  - intros options ty d a i m Ha. split.
    + intros Hi. eexists. split; [by apply submit_missing|]. simpl.
      split; [by apply since_app|]. by rewrite records_of_insert.
    + intros r m' Hi. rewrite (submit_found _ _ _ _ _ _ _ Ha Hi).
      match goal with
      | |- context [triggerSubmit ?o ?r0 ?t ?d0 ?ty0 ?m0] =>
          pose proof (triggerSubmit_trace o r0 t d0 ty0 m0) as Htr
      end.
      destruct (triggerSubmit _ _ _ _ _ _) as [[] m2|e m2]; [|done].
      intros [= <-]. simpl in *. rewrite records_of_insert.
      split; [|done]. apply since_app. simpl. by rewrite Htr.
  - intros options ty d a m m' Ha Hwf Hrun.
    destruct (submit_bulk _ _ _ _ _ _ Hwf Ha Hrun) as [Hst Htr].
    split; [by apply since_app|done].
Qed.

(** C10. [create] inserts before notifying: when the generator has
    returned an id and [onCreate] throws on the new record, the
    exception leaves [create], the record is already stored, and
    [getRecord] with the generated id returns it. *)
Theorem create_inserts_before_notifying options ty m i m1 f e w' :
  generateId options m = Ok i m1 →
  options_onCreate options = Some f →
  f {| id := i; type := ty; createdAt := (date_now (world m1)).1 |}
    (date_now (world m1)).2 = (Throw e, w') →
  ∃ m', create options ty m = Thrown e m'
    ∧ trace m' =
      trace m ++ [CallOnCreate {| id := i; type := ty;
                                  createdAt := (date_now (world m1)).1 |}]
    ∧ getRecord ty i m' =
      Ok (Some {| id := i; type := ty;
                  createdAt := (date_now (world m1)).1 |}) m'.
Proof.
  intros Hgen Hf Hthrow. rewrite create_run, Hgen, Hf. simpl.
  unfold host. simpl. rewrite Hthrow. simpl. eexists. split; [done|].
  pose proof (generateId_store options m) as [_ Htr]. rewrite Hgen in Htr.
  simpl in Htr. split; [by simpl; rewrite Htr|].
  rewrite getRecord_run. simpl. by rewrite lookup_insert_eq, get_set_eq.
Qed.

End TrackerFacts.

(** ** The claims at work on the concrete host *)

Lemma consuming_submit_witness :
  let r := {| id := "x"; type := "pageView"; createdAt := 1 |} in
  let m1 := final (create globalOptions "pageView" fresh) in
  let m2 := final (submit globalOptions "pageView" "/home" (ArgString "x") m1) in
  let later := [OpCreate (H:=demoHost) "pageView"; OpGetRecord "pageView" "x"] in
  wfStore (initializedRecords fresh)
  ∧ create globalOptions "pageView" fresh = Ok r m1
  ∧ submit globalOptions "pageView" "/home" (ArgString "x") m1 = Ok tt m2
  ∧ getRecord "pageView" "x" m2 =
    Ok None (logged (Warn "Record with id x not found for type pageView") m2)
  ∧ JsMap.get "x"
      (records_of "pageView"
         (initializedRecords (run globalOptions later m2))) = None.
Proof.
  intros r m1 m2 later.
  assert (wfStore (initializedRecords fresh)) as Hwf
    by apply map_Forall_empty.
  assert (create globalOptions "pageView" fresh = Ok r m1) as Hc
    by (vm_compute; reflexivity).
  assert (submit globalOptions "pageView" "/home" (ArgString "x") m1 = Ok tt m2)
    as Hs by (vm_compute; reflexivity).
  destruct (consuming_submit globalOptions "pageView" "/home"
              (ArgString "x") fresh r m1 m2 Hwf Hc eq_refl Hs)
    as [Hget Hlater].
  split_and!; [done..|].
  apply (Hlater later). split_and!; [|done..].
  intros i' m' Hgen. vm_compute in Hgen. by injection Hgen as <- _.
Defined.

Lemma bulk_submit_clears_partition_witness :
  let m := run routedOptions [OpCreate "click"; OpCreate "click"] fresh in
  let m' := final (submit routedOptions "click" "payload" ArgOmitted m) in
  wfStore (initializedRecords m)
  ∧ targetId ArgOmitted = None
  ∧ submit routedOptions "click" "payload" ArgOmitted m = Ok tt m'
  ∧ length (records_of "click" (initializedRecords m)) = 2
  ∧ length (submitCalls (trace m')) = length (submitCalls (trace m)) + 2
  ∧ world m' = 2005%nat
  ∧ getRecord "click" "x" m' =
    Ok None (logged (Warn "Record with id x not found for type click") m')
  ∧ getRecord "click" "xxx" m' =
    Ok None (logged (Warn "Record with id xxx not found for type click") m').
Proof.
  intros m m'.
  assert (wfStore (initializedRecords m)) as Hwf
    by apply (wfStore_run (H:=demoHost)).
  assert (submit routedOptions "click" "payload" ArgOmitted m = Ok tt m')
    as Hs by (vm_compute; reflexivity).
  destruct (bulk_submit_clears_partition routedOptions "click" "payload"
              ArgOmitted m m' Hwf eq_refl Hs)
    as (_ & Htable & _ & _ & Hget & _).
  destruct (Htable _ (tallyHandler 1000) eq_refl eq_refl)
    as (_ & Hlen & Hworld).
  split_and!; [done..| | | |].
  - exact Hlen.
  - rewrite Hworld. vm_compute. reflexivity.
  - exact (Hget "x").
  - exact (Hget "xxx").
Defined.

Lemma removal_fails_on_inherited_member_witness :
  let r := {| id := "x"; type := "valueOf"; createdAt := 1 |} in
  let m := final (create tableOptions "valueOf" fresh) in
  objectPrototype "valueOf" = Some BuiltinThrows
  ∧ JsMap.get "x" (records_of "valueOf" (initializedRecords m)) = Some r
  ∧ ∃ m', submit tableOptions "valueOf" "data" (ArgString "x") m =
          Thrown (H:=demoHost) "TypeError" m'
      ∧ JsMap.get "x" (records_of "valueOf" (initializedRecords m')) = Some r.
Proof.
  intros r m.
  assert (JsMap.get "x" (records_of "valueOf" (initializedRecords m)) = Some r)
    as Hget by (vm_compute; reflexivity).
  split_and!; [done..|].
  destruct (removal_fails_on_inherited_member tableOptions
              {[ "click" := quietHandler ]} "valueOf" "data" (ArgString "x")
              "x" r m eq_refl eq_refl (or_introl eq_refl) eq_refl Hget)
    as (m' & Hrun & Hkept & _).
  by exists m'.
Defined.

(** C4, as stated, fails: on a fresh tracker a single-mode [submit]
    for an unknown id finds nothing, warns, and yet the storage is no
    longer what it was, for the partition of the type now exists. *)
Lemma failed_submit_creates_partition :
  let m' := final (submit noOptions "pageView" "/home" (ArgString "nope") fresh) in
  submit noOptions "pageView" "/home" (ArgString "nope") fresh = Ok tt m'
  ∧ trace m' = [Warn "Record with id nope not found for type pageView"]
  ∧ initializedRecords fresh !! "pageView" = None
  ∧ initializedRecords m' !! "pageView" = Some []
  ∧ initializedRecords m' ≠ initializedRecords fresh.
Proof.
  intros m'.
  assert (initializedRecords m' !! "pageView" = Some []) as Hafter
    by (vm_compute; reflexivity).
  split_and!; [by vm_compute..|done|].
  intros Heq. rewrite Heq in Hafter. vm_compute in Hafter. discriminate.
Qed.

Lemma failed_lookup_keeps_records_witness :
  let m := final (create noOptions "pageView" fresh) in
  targetId (ArgString "nope") = Some "nope"
  ∧ JsMap.get "nope" (records_of "pageView" (initializedRecords m)) = None
  ∧ ∃ m', submit noOptions "pageView" "/home" (ArgString "nope") m = Ok tt m'
      ∧ trace m' =
        trace m ++ [Warn "Record with id nope not found for type pageView"]
      ∧ initializedRecords m' = initializedRecords m.
Proof.
  intros m.
  assert (JsMap.get "nope" (records_of "pageView" (initializedRecords m)) = None)
    as Hget by (vm_compute; reflexivity).
  split_and!; [done..|].
  destruct (proj2 (failed_lookup_keeps_records noOptions "pageView" "nope"
                     "/home" (ArgString "nope") m) eq_refl Hget)
    as (m' & Hrun & Htr & _ & _ & Hsame & _).
  exists m'. split_and!; [done..|].
  apply Hsame. vm_compute. eauto.
Defined.

(** C5, as stated, fails: the first call that references [pageView] on
    a fresh tracker is a [getRecord], and no partition exists for the
    type afterwards; a second read still warns that the type has no
    records. *)
Lemma getRecord_creates_no_partition :
  let m' := final (getRecord "pageView" "x" fresh) in
  initializedRecords fresh !! "pageView" = None
  ∧ initializedRecords m' !! "pageView" = None
  ∧ getRecord "pageView" "x" m' =
    Ok None (logged (Warn "No records found for type pageView") m').
Proof. intros m'. split_and!; by vm_compute. Qed.

Lemma partition_lifetime_witness :
  let m := final (create noOptions "pageView" fresh) in
  let ops := [OpSubmit (H:=demoHost) "pageView" "/home" ArgOmitted;
              OpGetRecord "pageView" "x";
              OpSubmit (H:=demoHost) "click" "/home" (ArgString "x")] in
  is_Some (initializedRecords m !! "pageView")
  ∧ records_of "pageView" (initializedRecords (run noOptions ops m)) = []
  ∧ is_Some (initializedRecords (run noOptions ops m) !! "pageView").
Proof.
  intros m ops.
  assert (is_Some (initializedRecords m !! "pageView")) as Hs
    by (vm_compute; eauto).
  split_and!; [done|by vm_compute|].
  destruct (partition_lifetime noOptions "pageView" m)
    as (_ & _ & _ & Hpersist & _).
  exact (Hpersist ops Hs).
Defined.

Lemma round_trip_read_witness :
  let r := {| id := "x"; type := "pageView"; createdAt := 1 |} in
  let m1 := final (create noOptions "pageView" fresh) in
  create noOptions "pageView" fresh = Ok r m1
  ∧ getRecord "pageView" "x" m1 = Ok (Some r) m1.
Proof.
  intros r m1.
  assert (create noOptions "pageView" fresh = Ok r m1) as Hc
    by (vm_compute; reflexivity).
  split; [done|].
  exact (proj1 (round_trip_read noOptions "pageView" fresh r m1 Hc)).
Defined.

Lemma getRecord_warns_precisely_witness :
  let m := final (create noOptions "pageView" fresh) in
  let r := {| id := "x"; type := "pageView"; createdAt := 1 |} in
  getRecord "neverCreated" "x" fresh =
    Ok None (logged (Warn "No records found for type neverCreated") fresh)
  ∧ getRecord "pageView" "non-existent-id" m =
    Ok None (logged
      (Warn "Record with id non-existent-id not found for type pageView") m)
  ∧ getRecord "pageView" "x" m = Ok (Some r) m.
Proof.
  intros m r.
  assert (initializedRecords m !! "pageView" = Some [("x", r)]) as Hp
    by (vm_compute; reflexivity).
  split_and!.
  - apply (proj1 (getRecord_warns_precisely "neverCreated" "x" fresh)).
    vm_compute. reflexivity.
  - destruct (getRecord_warns_precisely "pageView" "non-existent-id" m)
      as (_ & Hmiss & _).
    apply (Hmiss _ Hp). vm_compute. reflexivity.
  - destruct (getRecord_warns_precisely "pageView" "x" m)
      as (_ & _ & Hhit & _).
    apply (Hhit _ r Hp). vm_compute. reflexivity.
Defined.

Lemma missing_id_submit_warns_witness :
  targetId (ArgString "nope") = Some "nope"
  ∧ JsMap.get "nope" (records_of "pageView" (initializedRecords fresh)) = None
  ∧ ∃ m', submit globalOptions "pageView" "/home" (ArgString "nope") fresh =
          Ok tt m'
      ∧ trace m' =
        trace fresh ++ [Warn "Record with id nope not found for type pageView"]
      ∧ submitCalls (trace m') = submitCalls (trace fresh).
Proof.
  split_and!; [done..|].
  destruct (missing_id_submit_warns globalOptions "pageView" "/home"
              (ArgString "nope") "nope" fresh eq_refl eq_refl)
    as (m' & Hrun & Htr & Hcalls & _).
  exists m'. by split_and!.
Defined.

Lemma idOrRecord_resolution_witness :
  let m := run globalOptions [OpCreate "click"; OpCreate "click"] fresh in
  let r := {| id := "xxx"; type := "click"; createdAt := 3 |} in
  let byId := final (submit globalOptions "click" "payload" (ArgString "xxx") m) in
  let byRecord := final (submit globalOptions "click" "payload" (ArgRecord r) m) in
  let byEmpty := final (submit globalOptions "click" "payload" (ArgString "") m) in
  (records_of "click" (initializedRecords m)).*1 = ["x"; "xxx"]
  ∧ targetId (ArgString "xxx") = Some "xxx"
  ∧ targetId (ArgRecord r) = Some "xxx"
  ∧ (records_of "click" (initializedRecords byId)).*1 = ["x"]
  ∧ since m byId =
    [CallOnSubmit None (Build_TrackingSubmitRecord (H:=demoHost) r 4 "payload")]
  ∧ (records_of "click" (initializedRecords byRecord)).*1 = ["x"]
  ∧ submit globalOptions "click" "payload" (ArgObject None) m =
    submit globalOptions "click" "payload" ArgOmitted m
  ∧ records_of "click" (initializedRecords byEmpty) = []
  ∧ length (since m byEmpty) = 2.
Proof.
  intros m r byId byRecord byEmpty.
  destruct (idOrRecord_resolution (H:=demoHost))
    as (_ & _ & Hstr & Hrec & _ & _ & _ & _ & Hsame & _ & Hsingle & Hbulk).
  assert (targetId (ArgString "xxx") = Some "xxx") as HaId
    by (by apply Hstr).
  assert (targetId (ArgRecord r) = Some "xxx") as HaRec
    by (by apply (Hrec r)).
  assert (JsMap.get "xxx" (records_of "click" (initializedRecords m)) = Some r)
    as Hget by (vm_compute; reflexivity).
  assert (submit globalOptions "click" "payload" (ArgString "xxx") m =
          Ok tt byId) as HrunId by (vm_compute; reflexivity).
  assert (submit globalOptions "click" "payload" (ArgRecord r) m =
          Ok tt byRecord) as HrunRec by (vm_compute; reflexivity).
  assert (submit globalOptions "click" "payload" (ArgString "") m =
          Ok tt byEmpty) as HrunEmpty by (vm_compute; reflexivity).
  assert (wfStore (initializedRecords m)) as Hwf
    by apply (wfStore_run (H:=demoHost)).
  destruct (proj2 (Hsingle globalOptions "click" "payload" (ArgString "xxx")
                     "xxx" m HaId) r byId Hget HrunId) as [HsinceId HleftId].
  destruct (proj2 (Hsingle globalOptions "click" "payload" (ArgRecord r)
                     "xxx" m HaRec) r byRecord Hget HrunRec) as [_ HleftRec].
  destruct (Hbulk globalOptions "click" "payload" (ArgString "") m byEmpty
              eq_refl Hwf HrunEmpty) as [HsinceAll HleftAll].
  split_and!; [by vm_compute|done|done| | | | | |].
  - rewrite HleftId. vm_compute. reflexivity.
  - rewrite HsinceId. vm_compute. reflexivity.
  - rewrite HleftRec. vm_compute. reflexivity.
  - by apply (Hsame globalOptions "click" "payload" (ArgObject None) m).
  - unfold records_of. by rewrite HleftAll, lookup_insert_eq.
  - rewrite HsinceAll. vm_compute. reflexivity.
Defined.

Lemma create_inserts_before_notifying_witness :
  let r := {| id := "custom-id"; type := "pageView"; createdAt := 0 |} in
  generateId throwingOptions fresh = Ok "custom-id" fresh
  ∧ ∃ m', create throwingOptions "pageView" fresh =
          Thrown (H:=demoHost) "boom" m'
      ∧ trace m' = trace fresh ++ [CallOnCreate r]
      ∧ getRecord "pageView" "custom-id" m' = Ok (Some r) m'.
Proof.
  intros r. split; [by vm_compute|].
  exact (create_inserts_before_notifying throwingOptions "pageView" fresh
           "custom-id" fresh throwingCallback ("boom" : @Exn demoHost)
           (1%nat : @World demoHost)
           eq_refl eq_refl eq_refl).
Defined.

(** * Further properties of the tracker *)

Section TrackerMore.

Context `{Host}.

Implicit Types (m : Machine) (ty i k : string) (r : TrackingInitialRecord).
Implicit Types (options : Options) (d : Data) (a : IdOrRecord).
Implicit Types (p : list (string * TrackingInitialRecord)).

(** ** The events of a [submit] *)

Lemma dispatchEvents_app options ty t d p1 p2 :
  dispatchEvents options ty t d (p1 ++ p2) =
  dispatchEvents options ty t d p1 ++ dispatchEvents options ty t d p2.
Proof.
  unfold dispatchEvents.
  destruct (selectHandler options ty) as [[slot fn]|]; [|done].
  apply fmap_app.
Qed.

Lemma elem_of_submitCalls_dispatchEvents options ty t d p slot sr :
  (slot, sr) ∈ submitCalls (dispatchEvents options ty t d p) →
  (∃ fn, selectHandler options ty = Some (slot, fn))
  ∧ ∃ e, e ∈ p ∧ sr = {| initial := e.2; submittedAt := t; data := d |}.
Proof.
  destruct (selectHandler options ty) as [[slot' fn]|] eqn:Hsel.
  - rewrite (submitCalls_dispatchEvents _ _ _ _ _ _ _ Hsel).
    intros [e [[= -> ->] He]]%list_elem_of_fmap. eauto.
  - rewrite (dispatchEvents_none _ _ _ _ _ Hsel). by intros ?%elem_of_nil.
Qed.

(** The bulk loop emits handler calls and nothing else. *)
Lemma forEach_events options t d ty entries :
  ∀ m, ∃ p,
    trace (final (forEach ty (submitEach options ty d t) entries m)) =
    trace m ++ dispatchEvents options ty t d p.
Proof.
  induction entries as [|[k r0] rest IH]; intros m.
  - exists []. unfold dispatchEvents.
    destruct (selectHandler options ty) as [[? ?]|]; by rewrite app_nil_r.
  - rewrite forEach_cons.
    destruct (JsMap.get k _) as [r|]; [|by apply IH].
    rewrite submitEach_run.
    pose proof (triggerSubmit_trace options r t d ty m) as Htr.
    destruct (triggerSubmit _ _ _ _ _ _) as [[] m2|e m2]; simpl in Htr.
    + match goal with
      | |- context [forEach _ _ rest ?m0] => destruct (IH m0) as [p Hp]
      end.
      exists ((id r, r) :: p). rewrite Hp. simpl. rewrite Htr.
      by rewrite (dispatchEvents_app _ _ _ _ [(id r, r)] p), app_assoc.
    + by exists [(id r, r)].
Qed.

(** What a [submit] emits: handler calls for some records, or, in
    single mode with nothing under the id, the one warning. *)
Lemma submit_since options ty d a m :
  (∃ p, since m (final (submit options ty d a m)) =
        dispatchEvents options ty (date_now (world m)).1 d p
        ∧ (∀ i, targetId a = Some i →
             is_Some (JsMap.get i (records_of ty (initializedRecords m)))))
  ∨ (∃ i, targetId a = Some i
        ∧ JsMap.get i (records_of ty (initializedRecords m)) = None
        ∧ since m (final (submit options ty d a m)) =
          [Warn (msgNotFound i ty)]).
Proof.
  rewrite submit_run. simpl. set (m1 := setWorld _ (setStore _ m)).
  destruct (targetId a) as [i|].
  - destruct (JsMap.get i _) as [r|] eqn:Hi.
    + left. exists [(id r, r)]. split; [|by intros ? [= <-]; eauto].
      apply since_app.
      pose proof (triggerSubmit_trace options r (date_now (world m)).1 d ty m1)
        as Htr.
      by destruct (triggerSubmit _ _ _ _ _ _) as [[] m2|e m2].
    + right. exists i. split_and!; [done..|]. by apply since_app.
  - left.
    destruct (forEach_events options (date_now (world m)).1 d ty
                (records_of ty (initializedRecords m)) m1) as [p Hp].
    exists p. split; [by apply since_app|done].
Qed.

Lemma worldAfterCalls_inert (fn : SubmitHandler) args w :
  (∀ arg w', (fn arg w').2 = w') → worldAfterCalls fn args w = w.
Proof.
  intros Hfn. unfold worldAfterCalls.
  induction args as [|arg args IH]; simpl; [done|]. by rewrite Hfn.
Qed.

(** The loop runs the selected function, and no other, on the records
    it dispatches, one after the other. *)
Lemma forEach_runs options t d ty slot fn entries :
  selectHandler options ty = Some (slot, fn) →
  ∀ m, ∃ args,
    trace (final (forEach ty (submitEach options ty d t) entries m)) =
      trace m ++ (CallOnSubmit slot <$> args)
    ∧ Forall (λ arg, data arg = d ∧ submittedAt arg = t) args
    ∧ world (final (forEach ty (submitEach options ty d t) entries m)) =
      worldAfterCalls fn args (world m).
Proof.
  intros Hsel. induction entries as [|[k r0] rest IH]; intros m.
  - exists []. by rewrite app_nil_r.
  - rewrite forEach_cons.
    destruct (JsMap.get k _) as [r|]; [|by apply IH].
    rewrite submitEach_run, (triggerSubmit_some _ _ _ _ _ _ _ _ Hsel).
    simpl. unfold host. simpl.
    destruct (fn _ _).1 as [[]|e] eqn:Hfn; simpl.
    + match goal with
      | |- context [forEach _ _ rest ?m0] =>
          destruct (IH m0) as (args & Htr & Hall & Hw)
      end.
      exists ({| initial := r; submittedAt := t; data := d |} :: args).
      split_and!.
      * rewrite Htr, fmap_cons. simpl. by rewrite <- app_assoc.
      * by constructor.
      * by rewrite Hw.
    + exists [{| initial := r; submittedAt := t; data := d |}].
      split_and!; [done| |done]. by constructor.
Qed.

(** With no function selected the loop calls nothing and leaves the
    host alone. *)
Lemma forEach_idle options t d ty entries :
  selectHandler options ty = None →
  ∀ m,
    trace (final (forEach ty (submitEach options ty d t) entries m)) = trace m
    ∧ world (final (forEach ty (submitEach options ty d t) entries m)) =
      world m.
Proof.
  intros Hsel. induction entries as [|[k r0] rest IH]; intros m; [done|].
  rewrite forEach_cons.
  destruct (JsMap.get k _) as [r|]; [|by apply IH].
  rewrite submitEach_run.
  pose proof (triggerSubmit_trace options r t d ty m) as Htr.
  pose proof (triggerSubmit_world options r t d ty m) as Hw.
  rewrite (dispatchEvents_none _ _ _ _ _ Hsel), app_nil_r in Htr.
  rewrite Hsel in Hw.
  destruct (triggerSubmit _ _ _ _ _ _) as [[] m2|e m2]; simpl in *; [|done].
  match goal with
  | |- context [forEach _ _ rest ?m0] => destruct (IH m0) as [Htr' Hw']
  end.
  simpl in *. by rewrite Htr', Hw', Htr, Hw.
Qed.

(** What a [submit] runs when a function is selected. *)
Lemma submit_runs options ty d a m slot fn :
  selectHandler options ty = Some (slot, fn) →
  ∃ args,
    submitCalls (since m (final (submit options ty d a m))) =
      (λ arg, (slot, arg)) <$> args
    ∧ Forall (λ arg, data arg = d
                     ∧ submittedAt arg = (date_now (world m)).1) args
    ∧ world (final (submit options ty d a m)) =
      worldAfterCalls fn args (date_now (world m)).2.
Proof.
  intros Hsel.
  assert (∀ args : list TrackingSubmitRecord,
    submitCalls (CallOnSubmit slot <$> args) = (λ arg, (slot, arg)) <$> args)
    as Hcalls.
  { induction args as [|arg args IH]; [done|].
    rewrite !fmap_cons. rewrite <- IH. done. }
  rewrite submit_run. simpl. set (m1 := setWorld _ (setStore _ m)).
  destruct (targetId a) as [i|].
  - destruct (JsMap.get i _) as [r|].
    + rewrite (triggerSubmit_some _ _ _ _ _ _ _ _ Hsel). simpl.
      unfold host. simpl.
      exists [{| initial := r; submittedAt := (date_now (world m)).1;
                 data := d |}].
      destruct (fn _ _).1 as [[]|e] eqn:Hfn; simpl;
        (split_and!; [|by apply Forall_singleton|done]);
        by rewrite (since_app _ _ [CallOnSubmit slot
             {| initial := r; submittedAt := (date_now (world m)).1;
                data := d |}]).
    + exists []. simpl.
      by rewrite (since_app _ _ [Warn (msgNotFound i ty)]).
  - destruct (forEach_runs options (date_now (world m)).1 d ty slot fn
                (records_of ty (initializedRecords m)) Hsel m1)
      as (args & Htr & Hall & Hw).
    exists args. split_and!; [|done..].
    by rewrite (since_app m _ _ Htr), Hcalls.
Qed.

(** What a [submit] runs when no function is selected: nothing. *)
Lemma submit_idle options ty d a m :
  selectHandler options ty = None →
  submitCalls (since m (final (submit options ty d a m))) = []
  ∧ world (final (submit options ty d a m)) = (date_now (world m)).2.
Proof.
  intros Hsel. rewrite submit_run. simpl. set (m1 := setWorld _ (setStore _ m)).
  destruct (targetId a) as [i|].
  - destruct (JsMap.get i _) as [r|].
    + pose proof (triggerSubmit_trace options r (date_now (world m)).1 d ty m1)
        as Htr.
      pose proof (triggerSubmit_world options r (date_now (world m)).1 d ty m1)
        as Hw.
      rewrite (dispatchEvents_none _ _ _ _ _ Hsel) in Htr. rewrite Hsel in Hw.
      destruct (triggerSubmit _ _ _ _ _ _) as [[] m2|e m2]; simpl in *;
        rewrite app_nil_r in Htr;
        (rewrite (since_app m _ []); [done|by rewrite app_nil_r]).
    + simpl. by rewrite (since_app _ _ [Warn (msgNotFound i ty)]).
  - destruct (forEach_idle options (date_now (world m)).1 d ty
                (records_of ty (initializedRecords m)) Hsel m1) as [Htr Hw].
    split; [|done]. rewrite (since_app m _ []); [done|].
    by rewrite Htr, app_nil_r.
Qed.

(** X1. Handler routing: what a [submit] of a type runs, in either
    mode and however the call ends, is [onSubmit[type]] and nothing
    else.  With a single [onSubmit] function, that function is run on
    each dispatched record; with a table that has an entry of its own
    for the type, that entry, and no other type's entry, is run on
    each dispatched record: the handler calls are labelled with that
    type and the host ends in the state that running that one function
    on those records in turn produces.  Every call carries the supplied
    data and the one clock reading taken at the start.  With a table
    that has no entry of its own for the type, no table entry is run:
    the host is only moved on by the clock, and the only calls made
    are calls of the built-in the table inherits under that name.  With
    no [onSubmit] nothing is called. *)
Theorem submit_calls_routed options ty d a m :
  (∀ f, options_onSubmit options = Some (Global f) →
     ∃ args,
       submitCalls (since m (final (submit options ty d a m))) =
         (λ arg, (None, arg)) <$> args
       ∧ Forall (λ arg, data arg = d
                        ∧ submittedAt arg = (date_now (world m)).1) args
       ∧ world (final (submit options ty d a m)) =
         worldAfterCalls f args (date_now (world m)).2)
  ∧ (∀ table f, options_onSubmit options = Some (PerType table) →
       table !! ty = Some f →
       ∃ args,
         submitCalls (since m (final (submit options ty d a m))) =
           (λ arg, (Some ty, arg)) <$> args
         ∧ Forall (λ arg, data arg = d
                          ∧ submittedAt arg = (date_now (world m)).1) args
         ∧ world (final (submit options ty d a m)) =
           worldAfterCalls f args (date_now (world m)).2)
  ∧ (∀ table, options_onSubmit options = Some (PerType table) →
       table !! ty = None →
       world (final (submit options ty d a m)) = (date_now (world m)).2
       ∧ ∀ slot sr,
           (slot, sr) ∈ submitCalls (since m (final (submit options ty d a m))) →
           slot = Some ty
           ∧ (objectPrototype ty = Some BuiltinReturns
              ∨ objectPrototype ty = Some BuiltinThrows))
  ∧ (options_onSubmit options = None →
       submitCalls (since m (final (submit options ty d a m))) = []
       ∧ world (final (submit options ty d a m)) = (date_now (world m)).2).
Proof.
  split_and!.
  - intros f Hf. by apply submit_runs, selectHandler_global.
  - intros table f Htab Hf. by eapply submit_runs, selectHandler_own.
  - intros table Htab Hown.
    destruct (selectHandler options ty) as [[slot fn]|] eqn:Hsel.
    + destruct (submit_runs options ty d a m slot fn Hsel)
        as (args & Hcalls & _ & Hw).
      assert (slot = Some ty
              ∧ (objectPrototype ty = Some BuiltinReturns
                 ∨ objectPrototype ty = Some BuiltinThrows)
              ∧ ∀ arg w', (fn arg w').2 = w') as (-> & Hproto & Hinert).
      { unfold selectHandler, fnValue in Hsel. rewrite Htab, Hown in Hsel.
        destruct (objectPrototype ty) as [[| |]|]; [| |done..];
          injection Hsel as <- <-; split_and!; eauto. }
      split; [by rewrite Hw, worldAfterCalls_inert|].
      rewrite Hcalls. by intros slot sr [arg [[= -> ->] _]]%list_elem_of_fmap.
    + destruct (submit_idle options ty d a m Hsel) as [-> ->].
      split; [done|]. by intros ?? ?%elem_of_nil.
  - intros Hnone. apply submit_idle.
    unfold selectHandler, fnValue. by rewrite Hnone.
Qed.

(** X2. [submit] warns exactly when it runs in single mode and finds
    nothing under the id: then it emits the one missing-id warning; in
    every other case, the bulk mode over any partition included and a
    throwing handler included, it emits no warning at all. *)
Theorem submit_warns_iff_missing options ty d a m :
  warnings (since m (final (submit options ty d a m))) =
  match targetId a with
  | Some i =>
      match JsMap.get i (records_of ty (initializedRecords m)) with
      | None => [msgNotFound i ty]
      | Some _ => []
      end
  | None => []
  end.
Proof.
  destruct (submit_since options ty d a m)
    as [[p [Hev Hfound]]|[i (Ha & Hi & Hev)]]; rewrite Hev.
  - rewrite warnings_dispatchEvents.
    destruct (targetId a) as [i|]; [|done].
    by destruct (Hfound i eq_refl) as [r ->].
  - by rewrite Ha, Hi.
Qed.

(** ** What [create] builds *)

(** X3. The record [create] returns has the requested type, the id the
    configured generator returned (the default generator is used only
    when none is configured), and the clock reading taken right after
    the id was generated; on the way [create] emits one [onCreate] call
    with that record when the callback is configured, and nothing
    else. *)
Theorem create_builds_record options ty m r m1 :
  create options ty m = Ok r m1 →
  type r = ty
  ∧ (∀ g, options_generateId options = Some g →
       (g (world m)).1 = Normal (id r)
       ∧ createdAt r = (date_now (g (world m)).2).1)
  ∧ (options_generateId options = None →
       id r = (defaultIdGenerator (world m)).1
       ∧ createdAt r = (date_now (defaultIdGenerator (world m)).2).1)
  ∧ since m m1 =
    match options_onCreate options with
    | Some _ => [CallOnCreate r]
    | None => []
    end.
Proof.
  rewrite create_run. intros Hrun.
  destruct (generateId_store options m) as [_ Htr].
  destruct (generateId options m) as [i m0|e m0] eqn:Hgen; [|done].
  simpl in Htr.
  assert (r = {| id := i; type := ty; createdAt := (date_now (world m0)).1 |}
          ∧ since m m1 =
            match options_onCreate options with
            | Some _ => [CallOnCreate r]
            | None => []
            end) as [-> Hsince].
  { simpl in Hrun. destruct (options_onCreate options) as [f|].
    - match type of Hrun with
      | context [host ?g ?m2] => destruct (host_final g m2) as [_ Hh]
      end.
      destruct (host _ _) as [[] m3|e m3]; [|done].
      injection Hrun as <- <-. split; [done|].
      apply since_app. simpl in Hh. by rewrite Hh; simpl; rewrite Htr.
    - injection Hrun as <- <-. split; [done|].
      apply since_app. simpl. by rewrite Htr, app_nil_r. }
  split_and!; [done| | |done].
  - intros g Hg. unfold generateId, host in Hgen. rewrite Hg in Hgen.
    destruct (g (world m)).1 as [i'|e] eqn:Hi; [|done].
    by injection Hgen as <- <-.
  - intros Hnone. unfold generateId, host in Hgen. rewrite Hnone in Hgen.
    simpl in Hgen. by injection Hgen as <- <-.
Qed.

(** X4. When the configured id generator throws, [create] throws the
    same value before touching anything: the storage (no partition is
    created for the type) and the trace (no [onCreate] call) are what
    they were. *)
Theorem create_generator_throws options ty m g e :
  options_generateId options = Some g →
  (g (world m)).1 = Throw e →
  ∃ m', create options ty m = Thrown e m'
    ∧ initializedRecords m' = initializedRecords m
    ∧ trace m' = trace m.
Proof.
  intros Hg He. rewrite create_run. unfold generateId, host.
  rewrite Hg, He. by eexists.
Qed.

(** ** Throwing submission handlers *)

Lemma triggerSubmit_thrown options r t d ty m e m' :
  triggerSubmit options r t d ty m = Thrown e m' →
  (∃ slot fn,
     selectHandler options ty = Some (slot, fn)
     ∧ (fn {| initial := r; submittedAt := t; data := d |} (world m)).1 = Throw e
     ∧ m' = setWorld
              (fn {| initial := r; submittedAt := t; data := d |} (world m)).2
              (logged (CallOnSubmit slot
                         {| initial := r; submittedAt := t; data := d |}) m))
  ∨ (fnValue options ty = FnNotCallable ∧ e = TypeError ∧ m' = m).
Proof.
  unfold triggerSubmit, selectHandler.
  destruct (fnValue options ty) as [|slot fn|]; [done| |].
  - run_M. unfold host. simpl.
    destruct (fn _ _).1 as [[]|e'] eqn:Hfn; [done|].
    intros [= <- <-]. left. by exists slot, fn.
  - unfold throw. intros [= <- <-]. by right.
Qed.

(** X5. A single-mode [submit] whose handler throws on the found record
    throws the same value and consumes nothing: the record is still
    stored under its id, the partition is what it was, and the only
    event is the handler call itself. *)
Theorem single_submit_throw_keeps_record options ty d a i r m slot fn e :
  targetId a = Some i →
  JsMap.get i (records_of ty (initializedRecords m)) = Some r →
  selectHandler options ty = Some (slot, fn) →
  (fn {| initial := r; submittedAt := (date_now (world m)).1; data := d |}
      (date_now (world m)).2).1 = Throw e →
  ∃ m', submit options ty d a m = Thrown e m'
    ∧ JsMap.get i (records_of ty (initializedRecords m')) = Some r
    ∧ records_of ty (initializedRecords m') =
      records_of ty (initializedRecords m)
    ∧ since m m' =
      [CallOnSubmit slot {| initial := r;
                            submittedAt := (date_now (world m)).1;
                            data := d |}].
Proof.
  intros Ha Hi Hsel Hthrow.
  rewrite (submit_found _ _ _ _ _ _ _ Ha Hi).
  rewrite (triggerSubmit_some _ _ _ _ _ _ _ _ Hsel). simpl.
  unfold host. simpl. rewrite Hthrow. eexists. split; [done|]. simpl.
  rewrite records_of_insert. split_and!; [done..|]. by apply since_app.
Qed.



(** X7. Where a throwing [submit] throws from: either a configured
    handler (the single function, or the table's own entry for the
    type) threw that value on the record it was last called with, and
    that call is the last event; or [onSubmit] is a table with no entry
    of its own for the type, the type names a member inherited from
    [Object.prototype] that throws when called this way or cannot be
    called, and the value is a [TypeError].  In particular a [submit]
    never throws with no [onSubmit], nor with a table and a type that
    names neither an entry nor an inherited member. *)
Theorem submit_throw_origin options ty d a m e m' :
  submit options ty d a m = Thrown e m' →
  (∃ slot f sr w,
     (slot = None ∧ options_onSubmit options = Some (Global f)
      ∨ slot = Some ty
        ∧ ∃ table, options_onSubmit options = Some (PerType table)
                   ∧ table !! ty = Some f)
     ∧ (f sr w).1 = Throw e
     ∧ world m' = (f sr w).2
     ∧ last (trace m') = Some (CallOnSubmit slot sr))
  ∨ (e = TypeError
     ∧ ∃ table, options_onSubmit options = Some (PerType table)
                ∧ table !! ty = None
                ∧ (objectPrototype ty = Some BuiltinThrows
                   ∨ objectPrototype ty = Some NotCallable)).
Proof.
  assert (∀ r t m0,
    triggerSubmit options r t d ty m0 = Thrown e m' →
    (∃ slot fn sr w,
       selectHandler options ty = Some (slot, fn)
       ∧ (fn sr w).1 = Throw e
       ∧ world m' = (fn sr w).2
       ∧ last (trace m') = Some (CallOnSubmit slot sr))
    ∨ (fnValue options ty = FnNotCallable ∧ e = TypeError)) as Htrig.
  { intros r t m0 [(slot & fn & Hsel & Hfn & ->)|(Hval & -> & _)]
      %triggerSubmit_thrown; [left|by right].
    exists slot, fn, {| initial := r; submittedAt := t; data := d |},
      (world m0).
    split_and!; [done..|]. simpl. apply last_snoc. }
  assert ((∃ slot fn sr w,
             selectHandler options ty = Some (slot, fn)
             ∧ (fn sr w).1 = Throw e
             ∧ world m' = (fn sr w).2
             ∧ last (trace m') = Some (CallOnSubmit slot sr))
          ∨ (fnValue options ty = FnNotCallable ∧ e = TypeError) →
    (∃ slot f sr w,
       (slot = None ∧ options_onSubmit options = Some (Global f)
        ∨ slot = Some ty
          ∧ ∃ table, options_onSubmit options = Some (PerType table)
                     ∧ table !! ty = Some f)
       ∧ (f sr w).1 = Throw e
       ∧ world m' = (f sr w).2
       ∧ last (trace m') = Some (CallOnSubmit slot sr))
    ∨ (e = TypeError
       ∧ ∃ table, options_onSubmit options = Some (PerType table)
                  ∧ table !! ty = None
                  ∧ (objectPrototype ty = Some BuiltinThrows
                     ∨ objectPrototype ty = Some NotCallable))) as Hconfig.
  { unfold selectHandler, fnValue.
    destruct (options_onSubmit options) as [[f|table]|].
    - intros [(slot & fn & sr & w & [= <- <-] & Hrest)|[? _]]; [|done].
      left. exists None, f, sr, w. split; [by left|done].
    - destruct (table !! ty) as [f|] eqn:Hown.
      + intros [(slot & fn & sr & w & [= <- <-] & Hrest)|[? _]]; [|done].
        left. exists (Some ty), f, sr, w. split; [|done].
        right. split; [done|]. by exists table.
      + destruct (objectPrototype ty) as [[| |]|].
        * intros [(slot & fn & sr & w & [= <- <-] & Hfn & _)|[? _]]; done.
        * intros [(slot & fn & sr & w & [= <- <-] & Hfn & _)|[? _]]; [|done].
          simpl in Hfn. injection Hfn as <-.
          right. split; [done|]. exists table. eauto.
        * intros [(slot & fn & sr & w & ? & _)|[_ ->]]; [done|].
          right. split; [done|]. exists table. eauto.
        * intros [(slot & fn & sr & w & ? & _)|[? _]]; done.
    - intros [(slot & fn & sr & w & ? & _)|[? _]]; done. }
  intros Hrun. apply Hconfig. revert Hrun.
  rewrite submit_run. simpl. destruct (targetId a) as [i|].
  - destruct (JsMap.get i _) as [r|]; [|done].
    destruct (triggerSubmit _ _ _ _ _ _) as [[] m2|e2 m2] eqn:Ht; [done|].
    intros [= <- <-]. by eapply Htrig.
  - generalize (setWorld (date_now (world m)).2
                  (setStore (<[ty := records_of ty (initializedRecords m)]>
                               (initializedRecords m)) m)).
    generalize (records_of ty (initializedRecords m)) as entries.
    induction entries as [|[k r0] rest IH]; intros m0; [done|].
    rewrite forEach_cons.
    destruct (JsMap.get k _) as [r|]; [|by apply IH].
    rewrite submitEach_run.
    destruct (triggerSubmit _ _ _ _ _ _) as [[] m2|e2 m2] eqn:Ht.
    + apply IH.
    + intros [= <- <-]. by eapply Htrig.
Qed.

(** ** What the calls leave alone *)

(** X8. Calls on one type never touch another type: after a [create],
    a [submit] (any argument, any outcome) or a [getRecord] on [ty],
    the partition of every other type is exactly what it was,
    existence included. *)
Theorem calls_leave_other_types options ty ty' m :
  ty ≠ ty' →
  initializedRecords (final (create options ty m)) !! ty' =
    initializedRecords m !! ty'
  ∧ (∀ d a, initializedRecords (final (submit options ty d a m)) !! ty' =
            initializedRecords m !! ty')
  ∧ (∀ i, initializedRecords (final (getRecord ty i m)) !! ty' =
          initializedRecords m !! ty').
Proof.
  intros Hne. split_and!.
  - destruct (create_store options ty m) as [->|[r (_ & _ & ->)]]; [done|].
    by rewrite lookup_insert_ne.
  - intros d a.
    destruct (submit_shrinks options ty d a m (λ _, True)) as [p' [_ ->]];
      [done..|].
    by rewrite lookup_insert_ne.
  - intros i. by rewrite getRecord_store.
Qed.

(** X9. A single-mode [submit] touches at most the record under its
    id: however it ends, the partition is either what it was or what
    it was without that one entry, so every other id still reads as
    before and the remaining records keep their order. *)
Theorem single_submit_leaves_other_ids options ty d a i m :
  targetId a = Some i →
  (records_of ty (initializedRecords (final (submit options ty d a m))) =
     records_of ty (initializedRecords m)
   ∨ records_of ty (initializedRecords (final (submit options ty d a m))) =
     JsMap.delete i (records_of ty (initializedRecords m)))
  ∧ ∀ k, k ≠ i →
      JsMap.get k
        (records_of ty (initializedRecords (final (submit options ty d a m)))) =
      JsMap.get k (records_of ty (initializedRecords m)).
Proof.
  intros Ha.
  assert (records_of ty (initializedRecords (final (submit options ty d a m))) =
            records_of ty (initializedRecords m)
          ∨ records_of ty (initializedRecords (final (submit options ty d a m))) =
            JsMap.delete i (records_of ty (initializedRecords m))) as Hcases.
  { destruct (JsMap.get i (records_of ty (initializedRecords m)))
      as [r|] eqn:Hi.
    - rewrite (submit_found _ _ _ _ _ _ _ Ha Hi).
      match goal with
      | |- context [triggerSubmit ?o ?r0 ?t ?d0 ?ty0 ?m0] =>
          pose proof (triggerSubmit_store o r0 t d0 ty0 m0) as Hst
      end.
      destruct (triggerSubmit _ _ _ _ _ _) as [[] m2|e m2]; simpl in *.
      + right. by rewrite records_of_insert.
      + left. by rewrite Hst, records_of_insert.
    - rewrite (submit_missing _ _ _ _ _ _ Ha Hi). simpl.
      left. by rewrite records_of_insert. }
  split; [done|]. intros k Hk.
  destruct Hcases as [->| ->]; [done|]. by apply get_delete_ne.
Qed.

Lemma set_fresh k r p :
  JsMap.get k p = None → JsMap.set k r p = p ++ [(k, r)].
Proof.
  induction p as [|[k' r'] p IH]; simpl; [done|].
  destruct (String.eqb_spec k' k) as [->|Hne]; [done|].
  intros Hk. by rewrite IH.
Qed.

Lemma set_present_keys k r p :
  is_Some (JsMap.get k p) → (JsMap.set k r p).*1 = p.*1.
Proof.
  induction p as [|[k' r'] p IH]; simpl.
  - by intros [? ?].
  - destruct (String.eqb_spec k' k) as [->|Hne]; [done|].
    intros Hk. rewrite !fmap_cons. by rewrite IH.
Qed.

(** X10. Where [create] puts the record: under a fresh id it is
    appended after every record already stored for the type; under an
    id that is already stored (a generator that repeats itself) it
    takes the place of the earlier record, which is lost, and the keys
    and their order stay the same; records under other ids are not
    affected. *)
Theorem create_appends_or_replaces options ty m r m1 :
  create options ty m = Ok r m1 →
  (JsMap.get (id r) (records_of ty (initializedRecords m)) = None →
     records_of ty (initializedRecords m1) =
     records_of ty (initializedRecords m) ++ [(id r, r)])
  ∧ (is_Some (JsMap.get (id r) (records_of ty (initializedRecords m))) →
       (records_of ty (initializedRecords m1)).*1 =
       (records_of ty (initializedRecords m)).*1
       ∧ JsMap.get (id r) (records_of ty (initializedRecords m1)) = Some r)
  ∧ ∀ k, k ≠ id r →
      JsMap.get k (records_of ty (initializedRecords m1)) =
      JsMap.get k (records_of ty (initializedRecords m)).
Proof.
  intros [_ ->]%create_Ok. rewrite records_of_insert. split_and!.
  - apply set_fresh.
  - intros Hk. split; [by apply set_present_keys|apply get_set_eq].
  - intros k Hk. by apply get_set_ne.
Qed.

(** X11. A bulk [submit] for a type for which [onSubmit[type]] is
    undefined ([onSubmit] is not configured, or it is a table with no
    entry of its own for the type and the type names no member
    inherited from [Object.prototype]) always returns, emits nothing,
    and still empties the partition: every pending record of the type
    is dropped unseen. *)
Theorem bulk_submit_without_handler options ty d a m :
  wfStore (initializedRecords m) →
  targetId a = None →
  options_onSubmit options = None
  ∨ (∃ table, options_onSubmit options = Some (PerType table)
              ∧ table !! ty = None ∧ objectPrototype ty = None) →
  ∃ m', submit options ty d a m = Ok tt m'
    ∧ trace m' = trace m
    ∧ world m' = (date_now (world m)).2
    ∧ initializedRecords m' = <[ty := []]> (initializedRecords m).
Proof.
  intros Hwf Ha Hval%fnValue_undefined.
  assert (selectHandler options ty = None) as Hsel
    by (unfold selectHandler; by rewrite Hval).
  destruct (submit_returns options ty d a m) as [m' Hrun].
  { intros slot fn Hsome. congruence. }
  { congruence. }
  exists m'. split; [done|].
  destruct (submit_bulk _ _ _ _ _ _ Hwf Ha Hrun) as [Hst Htr].
  destruct (submit_idle options ty d a m Hsel) as [_ Hw].
  rewrite Hrun in Hw. simpl in Hw. split_and!; [|done..].
  by rewrite Htr, (dispatchEvents_none _ _ _ _ _ Hsel), app_nil_r.
Qed.

(** X18. Removal without a handler: a single-mode [submit] that finds
    its record and returns has removed it from the type's partition;
    and when [onSubmit[type]] is undefined ([onSubmit] is not
    configured, or it is a table with no entry of its own for the type
    and the type names no member inherited from [Object.prototype]),
    the call always returns, calls nothing, emits nothing, and has
    removed the record all the same. *)
Theorem removal_independent_of_handler options ty d a i r m :
  targetId a = Some i →
  JsMap.get i (records_of ty (initializedRecords m)) = Some r →
  (∀ m', submit options ty d a m = Ok tt m' →
     initializedRecords m' =
     <[ty := JsMap.delete i (records_of ty (initializedRecords m))]>
       (initializedRecords m)
     ∧ JsMap.get i (records_of ty (initializedRecords m')) = None)
  ∧ (options_onSubmit options = None
     ∨ (∃ table, options_onSubmit options = Some (PerType table)
                 ∧ table !! ty = None ∧ objectPrototype ty = None) →
     ∃ m', submit options ty d a m = Ok tt m'
       ∧ trace m' = trace m
       ∧ JsMap.get i (records_of ty (initializedRecords m')) = None).
Proof.
  intros Ha Hi. rewrite (submit_found _ _ _ _ _ _ _ Ha Hi). split.
  - intros m' Hrun.
    destruct (triggerSubmit _ _ _ _ _ _) as [[] m2|e m2]; [|done].
    injection Hrun as <-. simpl. split; [done|].
    by rewrite records_of_insert, get_delete_eq.
  - intros Hval%fnValue_undefined.
    rewrite (triggerSubmit_undefined _ _ _ _ _ _ Hval).
    eexists. split; [done|]. simpl. split; [done|].
    by rewrite records_of_insert, get_delete_eq.
Qed.

(** ** Compositions *)

(** X12. In every state a tracker can reach from [new Tracker], a
    successful [getRecord type id] returns a record whose own [id] and
    [type] fields are the requested ones, and leaves the tracker as it
    was. *)
Theorem reachable_lookup_matches options ops w ty i r m' :
  getRecord ty i (run options ops (newTracker w)) = Ok (Some r) m' →
  id r = i ∧ type r = ty ∧ m' = run options ops (newTracker w).
Proof.
  rewrite getRecord_run.
  destruct (initializedRecords (run options ops (newTracker w)) !! ty)
    as [p|] eqn:Hp; [|done].
  destruct (JsMap.get i p) as [r'|] eqn:Hi; [|done].
  intros [= -> <-].
  destruct (wfStore_run options ops w ty p Hp) as [_ Hall].
  rewrite Forall_forall in Hall.
  by destruct (Hall _ (get_Some_elem _ _ _ Hi)).
Qed.

(** X13. Once a [submit] has been made for a type, however it ended
    and whatever is called afterwards, [getRecord] on that type never
    again reports the type as unknown: it returns a record, or null
    with the missing-id warning. *)
Theorem type_known_after_submit options ty d a ops i m :
  (∃ r, getRecord ty i (run options ops (final (submit options ty d a m))) =
        Ok (Some r) (run options ops (final (submit options ty d a m))))
  ∨ getRecord ty i (run options ops (final (submit options ty d a m))) =
    Ok None (logged (Warn (msgNotFound i ty))
               (run options ops (final (submit options ty d a m)))).
Proof.
  assert (is_Some (initializedRecords
            (run options ops (final (submit options ty d a m))) !! ty))
    as [p Hp].
  { apply run_persist.
    destruct (submit_shrinks options ty d a m (λ _, True)) as [p' [_ ->]];
      [done..|].
    rewrite lookup_insert_eq. eauto. }
  rewrite getRecord_run, Hp. destruct (JsMap.get i p) as [r|]; eauto.
Qed.

(** X14. Bulk dispatch follows creation order: when a record is
    created under a fresh id and a bulk [submit] of its type then
    returns, the handler has been called on the records stored before,
    in their order, and on the new record last. *)
Theorem bulk_dispatches_in_creation_order options ty d a m r m1 m2 slot fn :
  wfStore (initializedRecords m) →
  create options ty m = Ok r m1 →
  JsMap.get (id r) (records_of ty (initializedRecords m)) = None →
  targetId a = None →
  submit options ty d a m1 = Ok tt m2 →
  selectHandler options ty = Some (slot, fn) →
  submitCalls (since m1 m2) =
  ((λ e, (slot, {| initial := e.2;
                   submittedAt := (date_now (world m1)).1;
                   data := d |})) <$> records_of ty (initializedRecords m))
  ++ [(slot, {| initial := r;
                submittedAt := (date_now (world m1)).1;
                data := d |})].
Proof.
  intros Hwf Hcreate Hfresh Ha Hsubmit Hsel.
  assert (wfStore (initializedRecords m1)) as Hwf1.
  { pose proof (wfStore_step options (OpCreate ty) m Hwf) as Hstep.
    simpl in Hstep. by rewrite Hcreate in Hstep. }
  destruct (submit_bulk _ _ _ _ _ _ Hwf1 Ha Hsubmit) as [_ Htr].
  rewrite (since_app _ _ _ Htr).
  rewrite (submitCalls_dispatchEvents _ _ _ _ _ _ _ Hsel).
  apply create_Ok in Hcreate as [_ ->].
  by rewrite records_of_insert, (set_fresh _ _ _ Hfresh), fmap_app.
Qed.

(** X15. The tracker itself never throws in [create]: when the call
    throws, either the id generator threw, and then nothing was
    stored, or [onCreate] threw on the new record, and then that call
    is the last event and the record is stored under its id. *)
Theorem create_throws_only_from_callbacks options ty m e m' :
  create options ty m = Thrown e m' →
  (generateId options m = Thrown e m'
   ∧ initializedRecords m' = initializedRecords m)
  ∨ (∃ f r w,
       options_onCreate options = Some f
       ∧ (f r w).1 = Throw e
       ∧ last (trace m') = Some (CallOnCreate r)
       ∧ JsMap.get (id r) (records_of ty (initializedRecords m')) = Some r).
Proof.
  rewrite create_run.
  destruct (generateId_store options m) as [Hst _].
  destruct (generateId options m) as [i m0|e0 m0]; simpl in Hst.
  - simpl. destruct (options_onCreate options) as [f|]; [|done].
    unfold host. simpl.
    destruct (f _ _).1 as [[]|e'] eqn:Hf; [done|].
    intros [= <- <-]. right.
    exists f, {| id := i; type := ty; createdAt := (date_now (world m0)).1 |},
      (date_now (world m0)).2.
    split_and!; [done..| |].
    + simpl. apply last_snoc.
    + simpl. by rewrite records_of_insert, get_set_eq.
  - intros [= <- <-]. by left.
Qed.

(** X16. A single-mode [submit] that finds its record and whose handler
    returns calls that handler exactly once, on the stored record's
    own fields with the supplied data and the clock reading taken at
    the start, emits nothing else, and removes the record. *)
Theorem single_submit_dispatches_once options ty d a i r m m' slot fn :
  targetId a = Some i →
  JsMap.get i (records_of ty (initializedRecords m)) = Some r →
  selectHandler options ty = Some (slot, fn) →
  submit options ty d a m = Ok tt m' →
  since m m' =
    [CallOnSubmit slot {| initial := r;
                          submittedAt := (date_now (world m)).1;
                          data := d |}]
  ∧ records_of ty (initializedRecords m') =
    JsMap.delete i (records_of ty (initializedRecords m)).
Proof.
  intros Ha Hi Hsel. rewrite (submit_found _ _ _ _ _ _ _ Ha Hi).
  match goal with
  | |- context [triggerSubmit ?o ?r0 ?t ?d0 ?ty0 ?m0] =>
      pose proof (triggerSubmit_trace o r0 t d0 ty0 m0) as Htr
  end.
  destruct (triggerSubmit _ _ _ _ _ _) as [[] m2|e m2]; [|done].
  intros [= <-]. simpl in *. rewrite records_of_insert. split; [|done].
  apply since_app. simpl. rewrite Htr. unfold dispatchEvents.
  by rewrite Hsel.
Qed.

(** X17. Create, then submit by the record object: when [create] has
    returned [r] with a non-empty id and [submit] is handed [r] itself
    and returns, the handler has been called exactly once, on [r], and
    [r] is no longer stored, while every other record of the type
    is. *)
Theorem create_then_submit_by_record options ty d m r m1 m2 slot fn :
  create options ty m = Ok r m1 →
  id r ≠ "" →
  selectHandler options ty = Some (slot, fn) →
  submit options ty d (ArgRecord r) m1 = Ok tt m2 →
  since m1 m2 =
    [CallOnSubmit slot {| initial := r;
                          submittedAt := (date_now (world m1)).1;
                          data := d |}]
  ∧ JsMap.get (id r) (records_of ty (initializedRecords m2)) = None
  ∧ ∀ k, k ≠ id r →
      JsMap.get k (records_of ty (initializedRecords m2)) =
      JsMap.get k (records_of ty (initializedRecords m)).
Proof.
  intros [_ Hst]%create_Ok Hid Hsel Hsubmit.
  assert (targetId (ArgRecord r) = Some (id r)) as Ha.
  { rewrite (targetId_resolved _ (id r)); [|done].
    by destruct (String.eqb_spec (id r) ""). }
  assert (JsMap.get (id r) (records_of ty (initializedRecords m1)) = Some r)
    as Hget by (by rewrite Hst, records_of_insert, get_set_eq).
  rewrite (submit_found _ _ _ _ _ _ _ Ha Hget) in Hsubmit.
  match type of Hsubmit with
  | context [triggerSubmit ?o ?r0 ?t ?d0 ?ty0 ?m0] =>
      pose proof (triggerSubmit_trace o r0 t d0 ty0 m0) as Htr
  end.
  destruct (triggerSubmit _ _ _ _ _ _) as [[] m3|e m3]; [|done].
  injection Hsubmit as <-. simpl in *. rewrite records_of_insert.
  split_and!.
  - apply since_app. simpl. rewrite Htr. unfold dispatchEvents.
    by rewrite Hsel.
  - apply get_delete_eq.
  - intros k Hk.
    by rewrite get_delete_ne, Hst, records_of_insert, get_set_ne.
Qed.

End TrackerMore.

(** ** The further properties at work on the concrete host *)

Lemma submit_calls_routed_witness :
  let m := run routedOptions
             [OpCreate "click"; OpCreate "pageView"; OpCreate "pageView"]
             fresh in
  let m' := final (submit routedOptions "pageView" "/home" ArgOmitted m) in
  world m = 6%nat
  ∧ world m' = 9%nat
  ∧ ∃ args,
      length args = 2
      ∧ submitCalls (since m m') = (λ arg, (Some "pageView", arg)) <$> args
      ∧ world m' = worldAfterCalls (tallyHandler 1) args (7%nat : @World demoHost).
Proof.
  intros m m'.
  destruct (submit_calls_routed routedOptions "pageView" "/home" ArgOmitted m)
    as (_ & Htable & _).
  destruct (Htable _ (tallyHandler 1) eq_refl eq_refl)
    as (args & Hcalls & _ & Hworld).
  split_and!; [by vm_compute..|].
  exists args. split_and!; [|done..].
  assert (length (submitCalls (since m m')) = 2) as Hlen by (by vm_compute).
  fold m' in Hcalls. by rewrite Hcalls, length_fmap in Hlen.
Defined.

Lemma create_builds_record_witness :
  let r := {| id := "custom-id"; type := "pageView"; createdAt := 0 |} in
  let m1 := final (create fixedIdOptions "pageView" fresh) in
  create fixedIdOptions "pageView" fresh = Ok r m1
  ∧ type r = "pageView"
  ∧ since fresh m1 = [].
Proof.
  intros r m1.
  assert (create fixedIdOptions "pageView" fresh = Ok r m1) as Hc
    by (vm_compute; reflexivity).
  destruct (create_builds_record fixedIdOptions "pageView" fresh r m1 Hc)
    as (Hty & _ & _ & Hsince).
  by split_and!.
Defined.

Lemma create_generator_throws_witness :
  ∃ m', create failingGeneratorOptions "pageView" fresh =
        Thrown (H:=demoHost) "no id" m'
    ∧ initializedRecords m' = initializedRecords fresh
    ∧ trace m' = trace fresh.
Proof.
  exact (create_generator_throws failingGeneratorOptions "pageView" fresh
           (λ w, (Throw (H:=demoHost) "no id", w)) ("no id" : @Exn demoHost)
           eq_refl eq_refl).
Defined.

Lemma single_submit_throw_keeps_record_witness :
  let m := run pickyOptions [OpCreate "click"; OpCreate "click"] fresh in
  let r := {| id := "xxx"; type := "click"; createdAt := 3 |} in
  JsMap.get "xxx" (records_of "click" (initializedRecords m)) = Some r
  ∧ ∃ m', submit pickyOptions "click" "payload" (ArgString "xxx") m =
          Thrown (H:=demoHost) "boom" m'
      ∧ JsMap.get "xxx" (records_of "click" (initializedRecords m')) = Some r.
Proof.
  intros m r.
  assert (JsMap.get "xxx" (records_of "click" (initializedRecords m)) = Some r)
    as Hget by (vm_compute; reflexivity).
  split; [done|].
  destruct (single_submit_throw_keeps_record pickyOptions "click" "payload"
              (ArgString "xxx") "xxx" r m None _ ("boom" : @Exn demoHost)
              eq_refl Hget eq_refl eq_refl)
    as (m' & Hrun & Hkept & _).
  by exists m'.
Defined.


Lemma submit_throw_origin_witness :
  let m := run pickyOptions [OpCreate "click"; OpCreate "click"] fresh in
  let m' := final (submit pickyOptions "click" "payload" ArgOmitted m) in
  submit pickyOptions "click" "payload" ArgOmitted m =
    Thrown (H:=demoHost) "boom" m'
  ∧ ∃ sr, last (trace m') = Some (CallOnSubmit None sr).
Proof.
  intros m m'.
  assert (submit pickyOptions "click" "payload" ArgOmitted m =
          Thrown (H:=demoHost) "boom" m') as Hs by (vm_compute; reflexivity).
  split; [done|].
  destruct (submit_throw_origin pickyOptions "click" "payload"
              ArgOmitted m ("boom" : @Exn demoHost) m' Hs)
    as [(slot & f & sr & w & [[-> _]|[_ (table & Htab & _)]] & _ & _ & Hlast)
       |[Herr _]].
  - by exists sr.
  - vm_compute in Htab. discriminate.
  - vm_compute in Herr. discriminate.
Defined.

Lemma calls_leave_other_types_witness :
  let m := final (create globalOptions "pageView" fresh) in
  "click" ≠ "pageView"
  ∧ initializedRecords
      (final (submit globalOptions "click" "payload" ArgOmitted m))
      !! "pageView" =
    initializedRecords m !! "pageView".
Proof.
  intros m.
  assert ("click" ≠ "pageView") as Hne by done.
  split; [done|].
  destruct (calls_leave_other_types globalOptions "click" "pageView" m Hne)
    as (_ & Hsubmit & _).
  apply Hsubmit.
Defined.

Lemma single_submit_leaves_other_ids_witness :
  let m := run globalOptions [OpCreate "click"; OpCreate "click"] fresh in
  targetId (ArgString "x") = Some "x"
  ∧ JsMap.get "xxx"
      (records_of "click"
         (initializedRecords
            (final (submit globalOptions "click" "payload" (ArgString "x") m)))) =
    JsMap.get "xxx" (records_of "click" (initializedRecords m)).
Proof.
  intros m. split; [done|].
  by apply (proj2 (single_submit_leaves_other_ids globalOptions "click"
                     "payload" (ArgString "x") "x" m eq_refl)).
Defined.

Lemma create_appends_or_replaces_witness :
  let m := final (create fixedIdOptions "pageView" fresh) in
  let r := {| id := "custom-id"; type := "pageView"; createdAt := 1 |} in
  let m1 := final (create fixedIdOptions "pageView" m) in
  create fixedIdOptions "pageView" m = Ok r m1
  ∧ is_Some (JsMap.get "custom-id"
               (records_of "pageView" (initializedRecords m)))
  ∧ (records_of "pageView" (initializedRecords m1)).*1 =
    (records_of "pageView" (initializedRecords m)).*1
  ∧ JsMap.get "custom-id" (records_of "pageView" (initializedRecords m1)) =
    Some r.
Proof.
  intros m r m1.
  assert (create fixedIdOptions "pageView" m = Ok r m1) as Hc
    by (vm_compute; reflexivity).
  assert (is_Some (JsMap.get "custom-id"
                     (records_of "pageView" (initializedRecords m)))) as Hold
    by (vm_compute; eauto).
  split_and!; [done..| |];
    by apply (proj1 (proj2 (create_appends_or_replaces fixedIdOptions
                              "pageView" m r m1 Hc))).
Defined.

Lemma bulk_submit_without_handler_witness :
  let m := run tableOptions [OpCreate "pageView"; OpCreate "pageView"] fresh in
  wfStore (initializedRecords m)
  ∧ objectPrototype "pageView" = None
  ∧ length (records_of "pageView" (initializedRecords m)) = 2
  ∧ ∃ m', submit tableOptions "pageView" "/home" ArgOmitted m = Ok tt m'
      ∧ trace m' = trace m
      ∧ initializedRecords m' = <["pageView" := []]> (initializedRecords m).
Proof.
  intros m.
  assert (wfStore (initializedRecords m)) as Hwf
    by apply (wfStore_run (H:=demoHost)).
  split_and!; [done|by vm_compute|by vm_compute|].
  destruct (bulk_submit_without_handler tableOptions "pageView" "/home"
              ArgOmitted m Hwf eq_refl) as (m' & Hrun & Htr & _ & Hst).
  { right. exists {[ "click" := quietHandler ]}. split_and!; [done| |].
    - vm_compute. reflexivity.
    - vm_compute. reflexivity. }
  by exists m'.
Defined.

Lemma removal_independent_of_handler_witness :
  let r := {| id := "x"; type := "pageView"; createdAt := 1 |} in
  let m := final (create tableOptions "pageView" fresh) in
  targetId (ArgRecord r) = Some "x"
  ∧ JsMap.get "x" (records_of "pageView" (initializedRecords m)) = Some r
  ∧ objectPrototype "pageView" = None
  ∧ ∃ m', submit tableOptions "pageView" "/home" (ArgRecord r) m = Ok tt m'
      ∧ trace m' = trace m
      ∧ JsMap.get "x" (records_of "pageView" (initializedRecords m')) = None.
Proof.
  intros r m.
  assert (JsMap.get "x" (records_of "pageView" (initializedRecords m)) = Some r)
    as Hget by (vm_compute; reflexivity).
  split_and!; [done..|by vm_compute|].
  apply (proj2 (removal_independent_of_handler tableOptions "pageView"
                  "/home" (ArgRecord r) "x" r m eq_refl Hget)).
  right. exists {[ "click" := quietHandler ]}. split_and!; [done| |].
  - vm_compute. reflexivity.
  - vm_compute. reflexivity.
Defined.

Lemma reachable_lookup_matches_witness :
  let r := {| id := "x"; type := "pageView"; createdAt := 1 |} in
  let m := run noOptions [OpCreate "pageView"] (newTracker (H:=demoHost) 0%nat) in
  getRecord "pageView" "x" m = Ok (Some r) m
  ∧ id r = "x" ∧ type r = "pageView".
Proof.
  intros r m.
  assert (getRecord "pageView" "x" m = Ok (Some r) m) as Hget
    by (vm_compute; reflexivity).
  split; [done|].
  destruct (reachable_lookup_matches noOptions [OpCreate "pageView"]
              (0%nat : @World demoHost) "pageView" "x" r m Hget)
    as (Hid & Hty & _).
  by split.
Defined.

Lemma bulk_dispatches_in_creation_order_witness :
  let m := final (create globalOptions "click" fresh) in
  let r0 := {| id := "x"; type := "click"; createdAt := 1 |} in
  let r := {| id := "xxx"; type := "click"; createdAt := 3 |} in
  let m1 := final (create globalOptions "click" m) in
  let m2 := final (submit globalOptions "click" "payload" ArgOmitted m1) in
  create globalOptions "click" m = Ok r m1
  ∧ JsMap.get "xxx" (records_of "click" (initializedRecords m)) = None
  ∧ submit globalOptions "click" "payload" ArgOmitted m1 = Ok tt m2
  ∧ submitCalls (since m1 m2) =
    [(None, Build_TrackingSubmitRecord (H:=demoHost) r0 4 "payload");
     (None, Build_TrackingSubmitRecord (H:=demoHost) r 4 "payload")].
Proof.
  intros m r0 r m1 m2.
  assert (wfStore (initializedRecords m)) as Hwf
    by apply (wfStore_run (H:=demoHost) globalOptions [OpCreate "click"]).
  assert (create globalOptions "click" m = Ok r m1) as Hc
    by (vm_compute; reflexivity).
  assert (submit globalOptions "click" "payload" ArgOmitted m1 = Ok tt m2)
    as Hs by (vm_compute; reflexivity).
  split_and!; [done..|].
  exact (bulk_dispatches_in_creation_order globalOptions "click" "payload"
           ArgOmitted m r m1 m2 None quietHandler Hwf Hc eq_refl eq_refl Hs
           eq_refl).
Defined.

Lemma create_throws_only_from_callbacks_witness :
  let m' := final (create throwingOptions "pageView" fresh) in
  create throwingOptions "pageView" fresh = Thrown (H:=demoHost) "boom" m'
  ∧ ∃ r, last (trace m') = Some (CallOnCreate r)
      ∧ JsMap.get (id r) (records_of "pageView" (initializedRecords m')) =
        Some r.
Proof.
  intros m'.
  assert (create throwingOptions "pageView" fresh =
          Thrown (H:=demoHost) "boom" m') as Hc by (vm_compute; reflexivity).
  split; [done|].
  destruct (create_throws_only_from_callbacks throwingOptions "pageView"
              fresh ("boom" : @Exn demoHost) m' Hc)
    as [[Hgen _]|(f & r & w & _ & _ & Hlast & Hget)].
  - vm_compute in Hgen. discriminate.
  - by exists r.
Defined.

Lemma single_submit_dispatches_once_witness :
  let r := {| id := "x"; type := "pageView"; createdAt := 1 |} in
  let m := final (create globalOptions "pageView" fresh) in
  let m' := final (submit globalOptions "pageView" "/home" (ArgString "x") m) in
  JsMap.get "x" (records_of "pageView" (initializedRecords m)) = Some r
  ∧ submit globalOptions "pageView" "/home" (ArgString "x") m = Ok tt m'
  ∧ since m m' =
    [CallOnSubmit None (Build_TrackingSubmitRecord (H:=demoHost) r 2 "/home")].
Proof.
  intros r m m'.
  assert (JsMap.get "x" (records_of "pageView" (initializedRecords m)) = Some r)
    as Hget by (vm_compute; reflexivity).
  assert (submit globalOptions "pageView" "/home" (ArgString "x") m = Ok tt m')
    as Hs by (vm_compute; reflexivity).
  split_and!; [done..|].
  exact (proj1 (single_submit_dispatches_once globalOptions "pageView" "/home"
                  (ArgString "x") "x" r m m' None quietHandler
                  eq_refl Hget eq_refl Hs)).
Defined.

Lemma create_then_submit_by_record_witness :
  let r := {| id := "x"; type := "pageView"; createdAt := 1 |} in
  let m1 := final (create globalOptions "pageView" fresh) in
  let m2 := final (submit globalOptions "pageView" "/home" (ArgRecord r) m1) in
  create globalOptions "pageView" fresh = Ok r m1
  ∧ submit globalOptions "pageView" "/home" (ArgRecord r) m1 = Ok tt m2
  ∧ since m1 m2 =
    [CallOnSubmit None (Build_TrackingSubmitRecord (H:=demoHost) r 2 "/home")]
  ∧ JsMap.get "x" (records_of "pageView" (initializedRecords m2)) = None.
Proof.
  intros r m1 m2.
  assert (create globalOptions "pageView" fresh = Ok r m1) as Hc
    by (vm_compute; reflexivity).
  assert (submit globalOptions "pageView" "/home" (ArgRecord r) m1 = Ok tt m2)
    as Hs by (vm_compute; reflexivity).
  assert (id r ≠ "") as Hid by done.
  destruct (create_then_submit_by_record globalOptions "pageView" "/home"
              fresh r m1 m2 None quietHandler Hc Hid eq_refl Hs)
    as (Hsince & Hgone & _).
  by split_and!.
Defined.
